(** * Notas por Regional (app_sidebar_MG.py): number parsing, reshaping, metrics

    A shallow embedding of the functions of [app_sidebar_MG.py]:
    [parse_br_number], [preparar_df], [montar_base] and the start-up check
    of the script, with the Python and pandas operations they call.

    - A Python [str] is held as the bytes of its UTF-8 encoding
      ([String.string]); the two characters outside ASCII that the source
      writes, the no-break space U+00A0 and the em dash U+2014, are the byte
      sequences [C2 A0] and [E2 80 94].
    - A Python [float] (a numpy [float64]) is a primitive binary64 [float];
      the missing marker [np.nan] is [nan], and [pd.isna] is [is_nan].
    - Code that can raise returns a [result]. *)

From Stdlib Require Import ZArith List String Ascii Bool Lia Floats.
From Stdlib Require Import DecimalString.
From Stdlib Require Import Permutation Sorted.
Import ListNotations.

Set Warnings "-inexact-float".

Local Open Scope string_scope.
Local Open Scope list_scope.

(* ================================================================== *)
(** * Exceptions *)

Inductive exn : Type :=
| AttributeError
| IndexError
| TypeError
| ValueError.

Inductive result (A : Type) : Type :=
| Ok (a : A)
| Raise (e : exn).

Arguments Ok {A} a.
Arguments Raise {A} e.

Definition bind {A B : Type} (r : result A) (k : A -> result B) : result B :=
  match r with
  | Ok a => k a
  | Raise e => Raise e
  end.

Notation "x <- r ;; k" := (bind r (fun x => k))
  (at level 61, r at next level, right associativity).

(** [Series.map f] with an [f] that can raise: the first exception wins. *)
Fixpoint mapM {A B : Type} (f : A -> result B) (l : list A) : result (list B) :=
  match l with
  | [] => Ok []
  | a :: l' => b <- f a ;; bs <- mapM f l' ;; Ok (b :: bs)
  end.

(* ================================================================== *)
(** * Python [str] operations *)

Module PyStr.

Definition byte (n : nat) : ascii := ascii_of_nat n.

Fixpoint of_bytes (l : list nat) : string :=
  match l with
  | [] => EmptyString
  | n :: l' => String (byte n) (of_bytes l')
  end.

(** ["\xa0"], the no-break space U+00A0. *)
Definition nbsp : string := of_bytes [194; 160].

(** [s.startswith(p)]. *)
Fixpoint startswith (p s : string) : bool :=
  match p, s with
  | EmptyString, _ => true
  | String a p', String b s' => Ascii.eqb a b && startswith p' s'
  | String _ _, EmptyString => false
  end.

(** [sub in s]. *)
Fixpoint contains (sub s : string) : bool :=
  startswith sub s ||
  match s with
  | EmptyString => false
  | String _ s' => contains sub s'
  end.

(** [s.rfind(sub)] counted from offset [i]: the highest offset at which
    [sub] occurs, [-1] when it does not occur.  Offsets count bytes; the
    source only compares two offsets of the same string, and the order of
    byte offsets is the order of character offsets. *)
Fixpoint rfind_from (sub s : string) (i : Z) : Z :=
  match s with
  | EmptyString => if startswith sub s then i else (-1)%Z
  | String _ s' =>
      let r := rfind_from sub s' (i + 1) in
      if (0 <=? r)%Z then r
      else if startswith sub s then i else (-1)%Z
  end.

Definition rfind (s sub : string) : Z := rfind_from sub s 0.

(** [s.replace(old, new)] for a non-empty [old]: occurrences are found from
    the left and do not overlap.  [skip] counts the bytes of the occurrence
    being replaced that are still to be passed over. *)
Fixpoint replace_from (old new : string) (skip : nat) (s : string) : string :=
  match s with
  | EmptyString => EmptyString
  | String c s' =>
      match skip with
      | S k => replace_from old new k s'
      | O =>
          if startswith old s
          then new ++ replace_from old new (String.length old - 1) s'
          else String c (replace_from old new 0 s')
      end
  end.

Definition replace (s old new : string) : string := replace_from old new 0 s.

(** The characters [str.isspace] accepts, in UTF-8: U+0009..U+000D,
    U+001C..U+0020, U+0085, U+00A0, U+1680, U+2000..U+200A, U+2028, U+2029,
    U+202F, U+205F, U+3000. *)
Definition whitespace : list string :=
  map of_bytes
    ([[9]; [10]; [11]; [12]; [13]; [28]; [29]; [30]; [31]; [32];
      [194; 133]; [194; 160]; [225; 154; 128]]
     ++ map (fun k => [226; 128; 128 + k]) (seq 0 11)
     ++ [[226; 128; 168]; [226; 128; 169]; [226; 128; 175];
         [226; 129; 159]; [227; 128; 128]]).

(** The rest of [s] after one leading white-space character, if any. *)
Fixpoint drop_one_of (ws : list string) (s : string) : option string :=
  match ws with
  | [] => None
  | w :: ws' =>
      if startswith w s
      then Some (substring (String.length w) (String.length s - String.length w) s)
      else drop_one_of ws' s
  end.

(** [s.lstrip()]; [fuel] bounds the number of characters removed. *)
Fixpoint lstrip_fuel (fuel : nat) (s : string) : string :=
  match fuel with
  | O => s
  | S n =>
      match drop_one_of whitespace s with
      | Some s' => lstrip_fuel n s'
      | None => s
      end
  end.

Definition lstrip (s : string) : string := lstrip_fuel (String.length s) s.

(** [s] is white space only. *)
Definition isblank (s : string) : bool :=
  match lstrip s with
  | EmptyString => true
  | _ => false
  end.

(** [s.rstrip()]: the part of [s] before its trailing white space. *)
Fixpoint rstrip (s : string) : string :=
  match s with
  | EmptyString => EmptyString
  | String c s' => if isblank s then EmptyString else String c (rstrip s')
  end.

(** [s.strip()]. *)
Definition strip (s : string) : string := rstrip (lstrip s).

Definition lower_char (c : ascii) : ascii :=
  let n := nat_of_ascii c in
  if (65 <=? n)%nat && (n <=? 90)%nat then ascii_of_nat (n + 32) else c.

(** [s.lower()] on the ASCII letters.  Outside ASCII, [str.lower] maps a
    character to characters outside ASCII, but for U+0130 and U+212A, which
    give [i] and [k]: whether a needle of ASCII letters other than [i] and
    [k] occurs in [s.lower()] is decided by this function. *)
Fixpoint lower (s : string) : string :=
  match s with
  | EmptyString => EmptyString
  | String c s' => String (lower_char c) (lower s')
  end.

End PyStr.

(* ================================================================== *)
(** * binary64 values and their text *)

Module Float64.

Local Open Scope float_scope.

(** [float(z)] of an integer: the nearest binary64, ties to even. *)
Definition of_Z (z : Z) : float :=
  SF2Prim (binary_normalize prec emax z 0 false).

Definition is_inf (x : float) : bool :=
  PrimFloat.eqb x infinity || PrimFloat.eqb x neg_infinity.

(** The decimal digits of a natural number. *)
Definition dec (n : Z) : string :=
  NilZero.string_of_uint (N.to_uint (Z.to_N n)).

(** The integer nearest to [m * 2^e * 100], ties to even. *)
Definition round_hundredths (m : positive) (e : Z) : Z :=
  if (0 <=? e)%Z then (Z.pos m * 2 ^ e * 100)%Z
  else
    let d := (2 ^ (- e))%Z in
    let n := (Z.pos m * 100)%Z in
    let q := (n / d)%Z in
    let r := (n mod d)%Z in
    if (2 * r <? d)%Z then q
    else if (d <? 2 * r)%Z then (q + 1)%Z
    else if Z.even q then q else (q + 1)%Z.

Definition two_digits (n : Z) : string :=
  if (n <? 10)%Z then "0" ++ dec n else dec n.

Definition fixed2 (hundredths : Z) : string :=
  dec (hundredths / 100) ++ "." ++ two_digits (hundredths mod 100).

Definition sign_text (plus negative : bool) : string :=
  if negative then "-" else if plus then "+" else "".

(** [f"{x:.2f}"] ([plus = false]) and [f"{x:+.2f}"] ([plus = true]): the
    exact value of [x] rounded to two decimals, ties to even; the sign of a
    negative value is kept when it rounds to zero. *)
Definition format_2f (plus : bool) (x : float) : string :=
  match Prim2SF x with
  | S754_nan => sign_text plus false ++ "nan"
  | S754_infinity s => sign_text plus s ++ "inf"
  | S754_zero s => sign_text plus s ++ "0.00"
  | S754_finite s m e => sign_text plus s ++ fixed2 (round_hundredths m e)
  end.

End Float64.

(* ================================================================== *)
(** * pandas: [to_numeric] on a [str] scalar *)

Module Pandas.

Import Float64.
Local Open Scope float_scope.

(** The [errors=] argument of [pd.to_numeric]. *)
Inductive errors : Type :=
| errors_raise
| errors_coerce.

Definition code (c : ascii) : nat := nat_of_ascii c.

Definition isspace_ascii (c : ascii) : bool :=
  (code c =? 32)%nat || ((9 <=? code c)%nat && (code c <=? 13)%nat).

Definition isdigit_ascii (c : ascii) : bool :=
  (48 <=? code c)%nat && (code c <=? 57)%nat.

Definition digit (c : ascii) : Z := Z.of_nat (code c - 48).

Definition max_digits : nat := 17.

(** The table [e[]] of the tokenizer: the binary64 nearest to [10^k]. *)
Definition e10 (k : Z) : float := of_Z (10 ^ k).

Fixpoint skip_spaces (s : string) : string :=
  match s with
  | String c s' => if isspace_ascii c then skip_spaces s' else s
  | EmptyString => s
  end.

(** An optional sign: whether it is [-], and the rest. *)
Definition take_sign (s : string) : bool * string :=
  match s with
  | String "-" s' => (true, s')
  | String "+" s' => (false, s')
  | _ => (false, s)
  end.

(** The state of the digit loops of [precise_xstrtod]: the value
    accumulated so far, the digits taken into it, the decimal exponent to
    apply, and the integer the digits spell. *)
Record digits_state : Type := mk_digits {
  number : float;
  num_digits : nat;
  exponent : Z;
  spelled : Z
}.

(** The digits before the decimal point: the first [max_digits] are
    accumulated, each further one raises the exponent. *)
Fixpoint integer_digits (s : string) (st : digits_state) : digits_state * string :=
  match s with
  | String c s' =>
      if isdigit_ascii c then
        integer_digits s'
          (if (num_digits st <? max_digits)%nat
           then mk_digits (number st * 10 + of_Z (digit c)) (S (num_digits st))
                          (exponent st) (spelled st * 10 + digit c)
           else mk_digits (number st) (num_digits st)
                          (exponent st + 1) (spelled st * 10 + digit c))
      else (st, s)
  | EmptyString => (st, s)
  end.

(** The digits after the decimal point: the ones that still fit are
    accumulated and lower the exponent, the others are passed over. *)
Fixpoint decimal_digits (s : string) (st : digits_state) : digits_state * string :=
  match s with
  | String c s' =>
      if isdigit_ascii c then
        decimal_digits s'
          (if (num_digits st <? max_digits)%nat
           then mk_digits (number st * 10 + of_Z (digit c)) (S (num_digits st))
                          (exponent st - 1) (spelled st)
           else st)
      else (st, s)
  | EmptyString => (st, s)
  end.

(** The digits of the exponent, at most [max_digits] of them: their value
    and count, and the rest. *)
Fixpoint exponent_digits (s : string) (n : Z) (count : nat) : Z * nat * string :=
  match s with
  | String c s' =>
      if isdigit_ascii c && (count <? max_digits)%nat
      then exponent_digits s' (n * 10 + digit c) (S count)
      else (n, count, s)
  | EmptyString => (n, count, s)
  end.

(** Scaling by the decimal exponent; [None] is the range error. *)
Definition scale (x : float) (ex : Z) : option float :=
  if (308 <? ex)%Z then None
  else
    let y :=
      if (0 <? ex)%Z then x * e10 ex
      else if (ex <? -308)%Z then
        if (ex <? -616)%Z then 0
        else x / e10 (-308 - ex) / e10 308
      else x / e10 (- ex) in
    if is_inf y then None else Some y.

(** [to_double] over [precise_xstrtod] with decimal point [.] and exponent
    mark [e], thousands separator off, trailing white space skipped: the
    value and the [maybe_int] flag with the integer spelled, or [None] when
    the text is not a number to the end or is out of range.  The counters
    the C code keeps in [int]s are unbounded integers here. *)
Definition to_double (s : string) : option (float * option Z) :=
  let '(negative, s) := take_sign (skip_spaces s) in
  let '(st, s) := integer_digits s (mk_digits 0 0 0 0) in
  let '(st, s, maybe_int) :=
    match s with
    | String "." s' =>
        let '(st', s'') := decimal_digits s' st in (st', s'', false)
    | _ => (st, s, true)
    end in
  if (num_digits st =? 0)%nat then None
  else
    let x := if negative then - number st else number st in
    let '(ex, s, maybe_int) :=
      match s with
      | String c s' =>
          if Ascii.eqb c "e" || Ascii.eqb c "E" then
            let '(neg_e, s'') := take_sign s' in
            let '(n, count, s''') := exponent_digits s'' 0 0 in
            if (count =? 0)%nat then (exponent st, s, false)
            else ((if neg_e then exponent st - n else exponent st + n)%Z, s''', false)
          else (exponent st, s, maybe_int)
      | EmptyString => (exponent st, s, maybe_int)
      end in
    match scale x ex with
    | None => None
    | Some y =>
        match skip_spaces s with
        | EmptyString =>
            Some (y, if maybe_int
                     then Some (if negative then - spelled st else spelled st)%Z
                     else None)
        | _ => None
        end
    end.

Definition INT64_MIN : Z := (- 2 ^ 63)%Z.
Definition UINT64_MAX : Z := (2 ^ 64 - 1)%Z.

(** The words [floatify] accepts when [to_double] fails, in any case of
    letters. *)
Definition inf_word (s : string) : option float :=
  let w := PyStr.lower s in
  if String.eqb w "inf" || String.eqb w "+inf"
     || String.eqb w "infinity" || String.eqb w "+infinity" then Some infinity
  else if String.eqb w "-inf" || String.eqb w "-infinity" then Some neg_infinity
  else None.

(** What the library reads in [s]: a number, or nothing.  An integer within
    the 64-bit range comes back as that integer and is widened to binary64
    by the [float64] column that receives it. *)
Definition parse_float (s : string) : option float :=
  match to_double s with
  | Some (y, Some z) =>
      if (INT64_MIN <=? z)%Z && (z <=? UINT64_MAX)%Z then Some (of_Z z) else Some y
  | Some (y, None) => Some y
  | None => inf_word s
  end.

(** [pd.to_numeric(s, errors=...)] for a [str] scalar [s]: the empty string
    is missing under either mode; text that is no number raises
    [ValueError], or is missing under [errors="coerce"]. *)
Definition to_numeric (s : string) (mode : errors) : result float :=
  match s with
  | EmptyString => Ok nan
  | _ =>
      match parse_float s with
      | Some y => Ok y
      | None =>
          match mode with
          | errors_coerce => Ok nan
          | errors_raise => Raise ValueError
          end
      end
  end.

End Pandas.

(* ================================================================== *)
(** * Cells, columns and frames *)

(** A spreadsheet cell as [read_excel] delivers it: empty ([None]), a number
    (an [int] or [float] of the sheet, held as the binary64 that [float(x)]
    gives; an empty cell of a numeric column is [nan]), or text. *)
Inductive Cell : Type :=
| CellNone
| CellNum (f : float)
| CellStr (s : string).

(** A column with its dtype: [is_numeric_dtype] holds of [NumCol] and not of
    [ObjCol] (dtype [object]). *)
Inductive Column : Type :=
| NumCol (vals : list float)
| ObjCol (vals : list Cell).

(** A frame: its labelled columns, in order.  [read_excel] delivers pairwise
    distinct labels and columns of one length. *)
Definition DataFrame : Type := list (string * Column).

(** A row of the long table: columns [Regional], [Avaliação], [Nota]. *)
Record LongRow : Type := mk_long {
  Regional : Cell;
  Avaliacao : string;
  Nota : float
}.

(** The long table; [categories] is the ordered label set of the
    categorical column [Avaliação]. *)
Record LongTable : Type := mk_table {
  categories : list string;
  rows : list LongRow
}.

(** The frame [montar_base] returns: the selected rows in category order and
    the columns it adds. *)
Record Base : Type := mk_base {
  base_rows : list LongRow;
  Nota_anterior : list float;
  Delta : list float;
  Delta_pct : list float;
  label_text : list string;
  hover_text : list string
}.

Definition is_numeric_dtype (c : Column) : bool :=
  match c with
  | NumCol _ => true
  | ObjCol _ => false
  end.

Definition cells (c : Column) : list Cell :=
  match c with
  | NumCol v => map CellNum v
  | ObjCol v => v
  end.

Definition height (c : Column) : nat := List.length (cells c).

(** [df.iloc[:-1]] on one column. *)
Definition drop_last (c : Column) : Column :=
  match c with
  | NumCol v => NumCol (removelast v)
  | ObjCol v => ObjCol (removelast v)
  end.

(** [l[-1]]. *)
Definition last_cell (l : list Cell) : result Cell :=
  match l with
  | [] => Raise IndexError
  | c :: l' => Ok (last l' c)
  end.

(** [zip]-wise application, as the element-wise operations of two columns
    of one frame. *)
Fixpoint zip_with {A B C : Type} (f : A -> B -> C) (l : list A) (m : list B) : list C :=
  match l, m with
  | a :: l', b :: m' => f a b :: zip_with f l' m'
  | _, _ => []
  end.

(* ================================================================== *)
(** * [parse_br_number] *)

Import PyStr.

Definition symbols : list string := ["R$"; "%"].

(** Lines 40-41: [str(x).strip().replace("\xa0", "").replace(" ", "")], then
    each of [R$] and [%] removed. *)
Definition cleaned (x : string) : string :=
  fold_left (fun s sym => replace s sym "")
            symbols
            (replace (replace (strip x) nbsp "") " " "").

(** Lines 42-50: the decimal and thousands separators. *)
Definition canonical (s : string) : string :=
  if contains "," s && contains "." s then
    if (rfind s "," >? rfind s ".")%Z
    then replace (replace s "." "") "," "."
    else replace s "," ""
  else if contains "," s then
    replace (replace s "." "") "," "."
  else
    replace s "," "".

Definition parse_br_number (x : Cell) : result float :=
  match x with
  | CellNone => Ok nan
  | CellNum f => if is_nan f then Ok nan else Ok f
  | CellStr x => Pandas.to_numeric (canonical (cleaned x)) Pandas.errors_coerce
  end.

(* ================================================================== *)
(** * [preparar_df] *)

(** Lines 60-61: [df.rename(columns={df.columns[0]: "Regional"})] when the
    first label is not ["Regional"]: the first column, and every other
    column that carries its label, is relabelled. *)
Definition rename_first (df : DataFrame) : DataFrame :=
  match df with
  | (name, _) :: _ =>
      if negb (String.eqb name "Regional")
      then map (fun nc => if String.eqb (fst nc) name then ("Regional", snd nc) else nc) df
      else df
  | [] => df
  end.

(** Lines 64-65: ["presen" in str(c).lower()].  [str] of a number or of
    [None] is made of digits, [.], [-], [+], [e] and the words [inf], [nan]
    and [None]: the needle does not occur in it. *)
Definition is_presence_label (c : Cell) : bool :=
  match c with
  | CellStr s => contains "presen" (lower s)
  | _ => false
  end.

(** Lines 70-72 on one column [df[c]]: an [object] column is mapped cell by
    cell, a numeric one is left as it is. *)
Definition normalize_column (c : Column) : result (list float) :=
  match c with
  | NumCol v => Ok v
  | ObjCol v => mapM parse_br_number v
  end.

(** Lines 69-72: the loop over the labels of [aval_cols], the columns after
    the first (labels are distinct, so [df[c]] is the column at the place of
    [c]). *)
Fixpoint normalize_columns (cols : list (string * Column))
  : result (list (string * list float)) :=
  match cols with
  | [] => Ok []
  | (name, c) :: cols' =>
      v <- normalize_column c ;;
      vs <- normalize_columns cols' ;;
      Ok ((name, v) :: vs)
  end.

(** One value column, labelled [name], against the id column. *)
Definition block (name : string) (reg : list Cell) (vals : list float) : list LongRow :=
  zip_with (fun r v => mk_long r name v) reg vals.

(** The rows [melt] lays out: the value columns one after the other, each
    against the whole id column. *)
Definition long_rows (regional : list Cell) (aval : list (string * list float))
  : list LongRow :=
  flat_map (fun cv => block (fst cv) regional (snd cv)) aval.

(** [df.melt(id_vars="Regional", value_vars=aval_cols,
    var_name="Avaliação", value_name="Nota")], lines 75-76.  The library
    refuses a frame that has a value column labelled as the value column of
    the result, ["Nota"], or as the id column, ["Regional"] (the frame then
    has two columns of that label): it raises [ValueError]. *)
Definition melt (regional : list Cell) (aval : list (string * list float))
  : result (list LongRow) :=
  if existsb (String.eqb "Nota") (map fst aval)
     || existsb (String.eqb "Regional") (map fst aval)
  then Raise ValueError
  else Ok (long_rows regional aval).

Fixpoint unique (l : list string) : bool :=
  match l with
  | [] => true
  | a :: l' => negb (existsb (String.eqb a) l') && unique l'
  end.

(** [pd.Categorical(values, categories=cats, ordered=True)]: the categories
    must be unique. *)
Definition Categorical (cats : list string) (long : list LongRow) : result LongTable :=
  if unique cats then Ok (mk_table cats long) else Raise ValueError.

Definition preparar_df (df : DataFrame) : result LongTable :=
  match rename_first df with
  | [] => Raise IndexError
  | (_, col0) :: avals =>
      ultima <- last_cell (cells col0) ;;
      let '(col0, avals) :=
        if is_presence_label ultima
        then (drop_last col0, map (fun nc => (fst nc, drop_last (snd nc))) avals)
        else (col0, avals) in
      let aval_cols := map fst avals in
      normalized <- normalize_columns avals ;;
      long <- melt (cells col0) normalized ;;
      Categorical aval_cols long
  end.

(* ================================================================== *)
(** * [montar_base] *)

Local Open Scope float_scope.

(** [a == b] on two cells, element of [df_long["Regional"] == regional]. *)
Definition cell_eq (a b : Cell) : bool :=
  match a, b with
  | CellStr s, CellStr t => String.eqb s t
  | CellNum x, CellNum y => PrimFloat.eqb x y
  | _, _ => false
  end.

(** The code of a label in the ordered categories; [None] for a label that
    is not a category. *)
Fixpoint category_code (cats : list string) (c : string) : option nat :=
  match cats with
  | [] => None
  | a :: cats' =>
      if String.eqb a c then Some O
      else option_map S (category_code cats' c)
  end.

(** The order of [sort_values] on codes: ascending, missing last. *)
Definition code_le (a b : option nat) : bool :=
  match a, b with
  | Some x, Some y => (x <=? y)%nat
  | Some _, None => true
  | None, Some _ => false
  | None, None => true
  end.

Fixpoint insert_row (cats : list string) (r : LongRow) (l : list LongRow) : list LongRow :=
  match l with
  | [] => [r]
  | r' :: l' =>
      if code_le (category_code cats (Avaliacao r)) (category_code cats (Avaliacao r'))
      then r :: l
      else r' :: insert_row cats r l'
  end.

(** [sort_values("Avaliação")]: by category code.  The library's default
    sort, quicksort, promises no order among rows of one category and does
    reorder them in long columns; the model keeps the order they come in,
    so only what holds of every order by category code is read off it. *)
Fixpoint sort_values (cats : list string) (l : list LongRow) : list LongRow :=
  match l with
  | [] => []
  | r :: l' => insert_row cats r (sort_values cats l')
  end.

(** [Series.shift(1)]. *)
Definition shift (l : list float) : list float :=
  match l with
  | [] => []
  | _ :: _ => nan :: removelast l
  end.

Definition em_dash : string := "—".

Definition fsgn (x : float) : string :=
  if is_nan x then em_dash else Float64.format_2f true x.

Definition fnum (x : float) : string :=
  if is_nan x then em_dash else Float64.format_2f false x.

Definition short_label (nota : float) : string :=
  ("Nota " ++ fnum nota)%string.

Definition long_label (nota delta delta_pct : float) : string :=
  ("Nota " ++ fnum nota ++ " (Δ " ++ fsgn delta ++ "; " ++ fsgn delta_pct ++ "%)")%string.

(** [a + b] on two columns of text. *)
Definition str_add (a b : list string) : list string :=
  zip_with String.append a b.

(** [np.where(cond, a, b)]. *)
Fixpoint np_where {A : Type} (cond : list bool) (a b : list A) : list A :=
  match cond, a, b with
  | c :: cond', x :: a', y :: b' => (if c then x else y) :: np_where cond' a' b'
  | _, _, _ => []
  end.

Fixpoint zip_with3 {A B C D : Type} (f : A -> B -> C -> D)
  (l : list A) (m : list B) (n : list C) : list D :=
  match l, m, n with
  | a :: l', b :: m', c :: n' => f a b c :: zip_with3 f l' m' n'
  | _, _, _ => []
  end.

(** Lines 86-106 on the selected, sorted rows. *)
Definition derive (sorted : list LongRow) : Base :=
  let nota := map Nota sorted in
  let nota_anterior := shift nota in
  let delta := zip_with PrimFloat.sub nota nota_anterior in
  let delta_pct := zip_with (fun d a => d / a * 100) delta nota_anterior in
  let label :=
    np_where (map is_nan nota_anterior)
             (map short_label nota)
             (zip_with3 long_label nota delta delta_pct) in
  let hover_texts :=
    (str_add
      (str_add
         (str_add (map (fun a => "<b>" ++ a ++ "</b>") (map Avaliacao sorted))
                  (map (fun x => "<br>Nota: " ++ fnum x) nota))
         (map (fun x => "<br>Variação Absoluta: " ++ fsgn x) delta))
      (map (fun x => "<br>Variação Percentual: " ++ fsgn x ++ "%") delta_pct))%string in
  mk_base sorted nota_anterior delta delta_pct label hover_texts.

(** Lines 83-106: the frame [montar_base] builds from the rows it selects.
    It is what the call returns when line 83 selects at least one row;
    [montar_base_call] below is the call as a whole, which raises when no
    row is selected. *)
Definition montar_base (df_long : LongTable) (regional : Cell) : Base :=
  derive
    (sort_values (categories df_long)
       (filter (fun r => cell_eq (Regional r) regional) (rows df_long))).

(** The call [montar_base(df_long, regional)], on a long table whose
    [Nota] column is float64, as [melt] makes it from the rows of a sheet.
    When line 83 selects no row, lines 86-88 raise nothing, but
    [base["Nota"].map(fnum)] of line 96 is an empty column, which [map]
    leaves as it is, of dtype float64, and [radd("Nota ")] on it raises
    numpy's [UFuncTypeError], a [TypeError]: text is not added to
    numbers. *)
Definition montar_base_call (df_long : LongTable) (regional : Cell) : result Base :=
  match filter (fun r => cell_eq (Regional r) regional) (rows df_long) with
  | [] => Raise TypeError
  | _ :: _ => Ok (montar_base df_long regional)
  end.

(* ================================================================== *)
(** * Start-up of the script (lines 10 and 133-135) *)

Module Main.

(** The Python values the start-up handles: a [str], or a
    [pathlib.Path]. *)
Inductive value : Type :=
| Str (s : string)
| PurePath (p : string).

(** Line 10. *)
Definition EXCEL_PATH : value := Str "Comparativo_MG.xlsx".

(** The files that exist. *)
Definition FileSystem : Type := string -> bool.

(** [x.exists()]: a method of [Path]; a [str] has no such attribute. *)
Definition exists_ (fs : FileSystem) (x : value) : result bool :=
  match x with
  | PurePath p => Ok (fs p)
  | Str _ => Raise AttributeError
  end.

(** The part of [s] after its last [/], for a path written with no
    trailing [/]. *)
Fixpoint basename (s : string) : string :=
  match s with
  | EmptyString => EmptyString
  | String c s' => if contains "/" s' then basename s' else
                     if Ascii.eqb c "/" then s' else s
  end.

(** [x.name]: an attribute of [Path]; a [str] has no such attribute. *)
Definition name (x : value) : result string :=
  match x with
  | PurePath p => Ok (basename p)
  | Str _ => Raise AttributeError
  end.

(** What the page shows. *)
Inductive element : Type :=
| st_error (message : string)
| st_plotly_chart.

(** How the start-up check ends: [st.stop()], an exception nobody
    catches, or the script going on to line 137. *)
Inductive outcome : Type :=
| Stopped
| Uncaught (e : exn)
| Proceeds.

(** Lines 133-135 for a configured [path]: the elements the check puts on
    the page, and how it ends. *)
Definition check (path : value) (fs : FileSystem) : list element * outcome :=
  match exists_ fs path with
  | Raise e => ([], Uncaught e)
  | Ok true => ([], Proceeds)
  | Ok false =>
      match name path with
      | Raise e => ([], Uncaught e)
      | Ok n => ([st_error ("Arquivo não encontrado: " ++ n ++ ".")%string], Stopped)
      end
  end.

Definition startup_check (fs : FileSystem) : list element * outcome :=
  check EXCEL_PATH fs.

End Main.

(* ================================================================== *)
(** * Vocabulary of the statements *)

Definition is_separator (c : ascii) : bool :=
  Ascii.eqb c "," || Ascii.eqb c ".".

(** The commas and dots of [s], in the order they occur. *)
Fixpoint separators (s : string) : list ascii :=
  match s with
  | EmptyString => []
  | String c s' => if is_separator c then c :: separators s' else separators s'
  end.

(** The separator that occurs later in [s] than every other one. *)
Fixpoint later_separator (s : string) : option ascii :=
  match s with
  | EmptyString => None
  | String c s' =>
      match later_separator s' with
      | Some d => Some d
      | None => if is_separator c then Some c else None
      end
  end.

(** The last element of a list of separators. *)
Fixpoint last_of (l : list ascii) : option ascii :=
  match l with
  | [] => None
  | a :: l' =>
      match last_of l' with
      | Some d => Some d
      | None => Some a
      end
  end.

(** [s] with the separator [d] read as the decimal point and the other
    separator removed as thousands grouping. *)
Fixpoint with_decimal_separator (d : ascii) (s : string) : string :=
  match s with
  | EmptyString => EmptyString
  | String c s' =>
      if is_separator c then
        if Ascii.eqb c d then String "." (with_decimal_separator d s')
        else with_decimal_separator d s'
      else String c (with_decimal_separator d s')
  end.

(** The cells of the first column, the labels of the other columns, and the
    number of rows of a frame. *)
Definition group_cells (df : DataFrame) : list Cell :=
  match df with
  | [] => []
  | (_, c) :: _ => cells c
  end.

Definition category_labels (df : DataFrame) : list string := map fst (tl df).

Definition row_count (df : DataFrame) : nat := List.length (group_cells df).

(** The last row carries the attendance marker in the first column. *)
Definition has_presence_row (df : DataFrame) : bool :=
  match group_cells df with
  | [] => false
  | c :: l => is_presence_label (last l c)
  end.

(** The letters of the attendance marker, each in lower and in upper
    case. *)
Definition marker_letters : list (ascii * ascii) :=
  [("p", "P"); ("r", "R"); ("e", "E"); ("s", "S"); ("e", "E"); ("n", "N")]%char.

(** [w] spells the attendance marker, each letter in either case. *)
Definition spells_marker (w : string) : Prop :=
  Forall2 (fun x lu => x = fst lu \/ x = snd lu) (list_ascii_of_string w) marker_letters.

(** The cell is a text that contains the attendance marker. *)
Definition attendance_label (c : Cell) : Prop :=
  exists s1 w s2 : string, c = CellStr (s1 ++ w ++ s2) /\ spells_marker w.

(** The first-column cells of the rows that are reshaped. *)
Definition scored_cells (df : DataFrame) : list Cell :=
  if has_presence_row df then removelast (group_cells df) else group_cells df.

(** A sheet as the reshaping expects it: a first column and at least one
    row, columns of one length, labels pairwise distinct (those of the
    category columns, and the first one, which line 61 replaces wherever it
    occurs) and no category label a name the reshaping introduces
    ([Regional], [Nota]). *)
Definition well_formed (df : DataFrame) : bool :=
  match df with
  | [] => false
  | (name, c0) :: avals =>
      (0 <? height c0)%nat
      && forallb (fun nc => (height (snd nc) =? height c0)%nat) avals
      && unique (name :: map fst avals)
      && negb (existsb (String.eqb "Regional") (map fst avals))
      && negb (existsb (String.eqb "Nota") (map fst avals))
  end.

(** A character-by-character replacement: every [c] becomes [new]. *)
Fixpoint subst_char (c : ascii) (new : string) (s : string) : string :=
  match s with
  | EmptyString => EmptyString
  | String a s' =>
      if Ascii.eqb c a then new ++ subst_char c new s'
      else String a (subst_char c new s')
  end.

(** The first [k] characters of [s] hold no separator. *)
Fixpoint plain_prefix (k : nat) (s : string) : Prop :=
  match k, s with
  | S k', String c s' => is_separator c = false /\ plain_prefix k' s'
  | _, _ => True
  end.

(** The value [shift] puts at position [i] of a column [l]: missing at the
    top, the value one position up elsewhere. *)
Definition previous (l : list float) (i : nat) : float :=
  match i with
  | O => nan
  | S j => nth j l nan
  end.

(** The codes of [l] never decrease, from [lo] on, and none is missing. *)
Fixpoint ascending_from (lo : nat) (l : list (option nat)) : Prop :=
  match l with
  | [] => True
  | Some x :: l' => (lo <= x)%nat /\ ascending_from x l'
  | None :: _ => False
  end.

(** The long table of one group [g] over three rounds. *)
Definition one_group (g c1 c2 c3 : string) (v1 v2 v3 : float) : LongTable :=
  mk_table [c1; c2; c3]
    [mk_long (CellStr g) c1 v1; mk_long (CellStr g) c2 v2; mk_long (CellStr g) c3 v3].

(** The long table of two groups over three rounds, as [melt] lays it
    out. *)
Definition two_groups : LongTable :=
  mk_table ["c1"; "c2"; "c3"]
    [mk_long (CellStr "G") "c1" 10; mk_long (CellStr "H") "c1" 7;
     mk_long (CellStr "G") "c2" 12; mk_long (CellStr "H") "c2" 8;
     mk_long (CellStr "G") "c3" 9; mk_long (CellStr "H") "c3" 6.5].

(** The same rows in another order, the rounds of each group last to
    first. *)
Definition two_groups_unordered : LongTable :=
  mk_table ["c1"; "c2"; "c3"]
    [mk_long (CellStr "G") "c3" 9; mk_long (CellStr "H") "c3" 6.5;
     mk_long (CellStr "G") "c1" 10; mk_long (CellStr "H") "c2" 8;
     mk_long (CellStr "G") "c2" 12; mk_long (CellStr "H") "c1" 7].

(** A sheet of two regionals and an attendance row, with rounds whose labels
    do not sort into their order. *)
Definition sheet_example : DataFrame :=
  [("Unidade", ObjCol [CellStr "Norte"; CellStr "Sul"; CellStr "Presença"]);
   ("R10", ObjCol [CellStr "1,5"; CellNum 2; CellStr "90%"]);
   ("R2", NumCol [3; 4; 5]%float);
   ("R1", ObjCol [CellStr "6,25"; CellStr "7"; CellStr "85,5%"])].

(** A sheet with a round labelled [Nota], the label [melt] gives to the
    value column of the long table. *)
Definition sheet_reserved : DataFrame :=
  [("Unidade", ObjCol [CellStr "Norte"; CellStr "Sul"]);
   ("R1", NumCol [3; 4]%float);
   ("Nota", ObjCol [CellStr "6,25"; CellStr "7"])].

(* ================================================================== *)
(** * The region selector (lines 159-167) *)

(** [pd.isna(c)]. *)
Definition is_missing (c : Cell) : bool :=
  match c with
  | CellNone => true
  | CellNum f => is_nan f
  | CellStr _ => false
  end.

(** [Series.dropna()]. *)
Definition dropna (l : list Cell) : list Cell :=
  filter (fun c => negb (is_missing c)) l.

(** [Series.unique()] on a column with no missing value: the values in the
    order they first appear. *)
Fixpoint Series_unique (l : list Cell) : list Cell :=
  match l with
  | [] => []
  | c :: l' => c :: filter (fun d => negb (cell_eq d c)) (Series_unique l')
  end.

(** Line 159: [df_long["Regional"].dropna().unique()]. *)
Definition regionais (df_long : LongTable) : list Cell :=
  Series_unique (dropna (map Regional (rows df_long))).

(** [a < b] on two cells: text against text by code points (the order of
    the UTF-8 bytes), number against number; [None] is the [TypeError] of
    any other pair. *)
Definition cell_lt (a b : Cell) : option bool :=
  match a, b with
  | CellStr s, CellStr t => Some (String.ltb s t)
  | CellNum x, CellNum y => Some (PrimFloat.ltb x y)
  | _, _ => None
  end.

(** [x] put in its place in a sorted list, before the first element that is
    not less than it. *)
Fixpoint insort (x : Cell) (l : list Cell) : option (list Cell) :=
  match l with
  | [] => Some [x]
  | y :: l' =>
      match cell_lt y x with
      | None => None
      | Some true => option_map (cons y) (insort x l')
      | Some false => Some (x :: l)
      end
  end.

(** [sorted(l)]: ascending and stable; [None] is the [TypeError] of a
    comparison between text and a number. *)
Fixpoint py_sorted (l : list Cell) : option (list Cell) :=
  match l with
  | [] => Some []
  | x :: l' =>
      match py_sorted l' with
      | None => None
      | Some s => insort x s
      end
  end.

(** Line 162: the options of the region selector, [sorted(regionais)]. *)
Definition region_options (df_long : LongTable) : option (list Cell) :=
  py_sorted (regionais df_long).

Definition is_text (c : Cell) : bool :=
  match c with
  | CellStr _ => true
  | _ => false
  end.

Definition is_number (c : Cell) : bool :=
  match c with
  | CellNum _ => true
  | _ => false
  end.

(** The columns after the first, without the attendance row when there is
    one. *)
Definition scored_columns (df : DataFrame) : list (string * Column) :=
  if has_presence_row df
  then map (fun nc => (fst nc, drop_last (snd nc))) (tl df)
  else tl df.

(** The code of a row's round, and rows in category order. *)
Definition round_of (cats : list string) (r : LongRow) : option nat :=
  category_code cats (Avaliacao r).

Definition in_order (cats : list string) (a b : LongRow) : Prop :=
  code_le (round_of cats a) (round_of cats b) = true.

(** The number of cells of [l] equal to [g]. *)
Definition occurrences (g : Cell) (l : list Cell) : nat :=
  List.length (filter (fun c => cell_eq c g) l).

(** No element is less than the one before it. *)
Definition ascending (a b : Cell) : Prop := cell_lt b a = Some false.

(** Two cells that [<] compares. *)
Definition same_kind (a b : Cell) : bool :=
  is_text a && is_text b || is_number a && is_number b.

(** A text of white-space characters only. *)
Inductive Blank : string -> Prop :=
| Blank_nil : Blank EmptyString
| Blank_cons : forall w s, In w whitespace -> Blank s -> Blank (w ++ s).

(* ================================================================== *)
(** * Start-up *)

Lemma check_of_path_missing : forall (fs : Main.FileSystem) (p : string),
  fs p = false ->
  Main.check (Main.PurePath p) fs
  = ([Main.st_error ("Arquivo não encontrado: " ++ Main.basename p ++ ".")%string],
     Main.Stopped).
Proof.
  intros fs p Hp. unfold Main.check. simpl. rewrite Hp. reflexivity.
Qed.

Lemma check_of_path_present : forall (fs : Main.FileSystem) (p : string),
  fs p = true -> Main.check (Main.PurePath p) fs = ([], Main.Proceeds).
Proof.
  intros fs p Hp. unfold Main.check. simpl. rewrite Hp. reflexivity.
Qed.

(** C1 (the code departs from the claim).  [EXCEL_PATH] is the [str] of
    line 10, so the check of lines 133-135 ends in an [AttributeError] that
    nothing catches, whatever files exist: no message naming the file is
    put on the page, and when the file exists the script does not get past
    the check. *)
Theorem startup_check_raises : forall fs : Main.FileSystem,
  Main.startup_check fs = ([], Main.Uncaught AttributeError).
Proof.
  intro fs. reflexivity.
Qed.

(* ================================================================== *)
(** * Columns, position by position *)

Section Positions.

Context {A B C D : Type}.

Lemma nth_error_zip_with : forall (f : A -> B -> C) l m i a b,
  nth_error l i = Some a -> nth_error m i = Some b ->
  nth_error (zip_with f l m) i = Some (f a b).
Proof.
  intros f l. induction l as [|x l IH]; intros m i a b Hl Hm.
  - destruct i; discriminate.
  - destruct m as [|y m]; [destruct i; discriminate|].
    destruct i as [|i]; simpl in *.
    + congruence.
    + eauto.
Qed.

Lemma nth_error_zip_with3 : forall (f : A -> B -> C -> D) l m n i a b c,
  nth_error l i = Some a -> nth_error m i = Some b -> nth_error n i = Some c ->
  nth_error (zip_with3 f l m n) i = Some (f a b c).
Proof.
  intros f l. induction l as [|x l IH]; intros m n i a b c Hl Hm Hn.
  - destruct i; discriminate.
  - destruct m as [|y m]; [destruct i; discriminate|].
    destruct n as [|z n]; [destruct i; discriminate|].
    destruct i as [|i]; simpl in *.
    + congruence.
    + eauto.
Qed.

Lemma nth_error_np_where : forall cond (l m : list A) i c a b,
  nth_error cond i = Some c -> nth_error l i = Some a -> nth_error m i = Some b ->
  nth_error (np_where cond l m) i = Some (if c then a else b).
Proof.
  intros cond. induction cond as [|x cond IH]; intros l m i c a b Hc Hl Hm.
  - destruct i; discriminate.
  - destruct l as [|y l]; [destruct i; discriminate|].
    destruct m as [|z m]; [destruct i; discriminate|].
    destruct i as [|i]; simpl in *.
    + inversion Hc; inversion Hl; inversion Hm; subst. reflexivity.
    + eauto.
Qed.

End Positions.

Lemma nth_error_removelast : forall (A : Type) (l : list A) i,
  S i < List.length l -> nth_error (removelast l) i = nth_error l i.
Proof.
  intros A l. induction l as [|x l IH]; intros i Hi.
  - simpl in Hi. lia.
  - destruct l as [|y l].
    + simpl in Hi. lia.
    + destruct i as [|i].
      * reflexivity.
      * change (removelast (x :: y :: l)) with (x :: removelast (y :: l)).
        simpl nth_error at 1. rewrite IH by (simpl in *; lia). reflexivity.
Qed.

Lemma nth_error_shift : forall l i x,
  nth_error l i = Some x -> nth_error (shift l) i = Some (previous l i).
Proof.
  intros l i x H.
  destruct l as [|y l]; [destruct i; discriminate|].
  unfold shift. destruct i as [|i]; [reflexivity|].
  change (nth_error (removelast (y :: l)) i = Some (nth i (y :: l) nan)).
  assert (Hlen : S i < List.length (y :: l)).
  { apply nth_error_Some. rewrite H. discriminate. }
  rewrite nth_error_removelast by exact Hlen.
  apply nth_error_nth'. lia.
Qed.

(** Row [i] of the frame [derive] builds. *)
Lemma derive_row : forall sorted i r,
  nth_error sorted i = Some r ->
  let b := derive sorted in
  let prev := previous (map Nota sorted) i in
  let delta := PrimFloat.sub (Nota r) prev in
  let pct := PrimFloat.mul (PrimFloat.div delta prev) 100%float in
  nth_error (Nota_anterior b) i = Some prev
  /\ nth_error (Delta b) i = Some delta
  /\ nth_error (Delta_pct b) i = Some pct
  /\ nth_error (label_text b) i
     = Some (if is_nan prev then short_label (Nota r)
             else long_label (Nota r) delta pct).
Proof.
  intros sorted i r Hr b prev delta pct.
  assert (Hn : nth_error (map Nota sorted) i = Some (Nota r))
    by (rewrite nth_error_map, Hr; reflexivity).
  assert (Hp : nth_error (shift (map Nota sorted)) i = Some prev)
    by (eapply nth_error_shift; eassumption).
  assert (Hd : nth_error (Delta b) i = Some delta)
    by (apply nth_error_zip_with; assumption).
  assert (Hq : nth_error (Delta_pct b) i = Some pct)
    by (exact (nth_error_zip_with (fun d a => (d / a * 100)%float) _ _ i _ _ Hd Hp)).
  repeat split; try assumption.
  unfold b, derive. cbn [label_text].
  apply nth_error_np_where.
  - rewrite nth_error_map. fold prev in Hp. rewrite Hp. reflexivity.
  - rewrite nth_error_map, Hn. reflexivity.
  - apply nth_error_zip_with3; assumption.
Qed.

(* ================================================================== *)
(** * binary64 facts *)

Local Open Scope float_scope.

Lemma not_nan_class : forall v : float,
  is_nan v = false -> Prim2SF v <> S754_nan.
Proof.
  intros v H E. unfold is_nan in H. rewrite eqb_spec, E in H. discriminate.
Qed.

Lemma zero_class : forall z : float,
  (z =? 0) = true -> exists s, Prim2SF z = S754_zero s.
Proof.
  intros z H. rewrite eqb_spec in H.
  change (Prim2SF 0) with (S754_zero false) in H.
  destruct (Prim2SF z) as [s|s| |s m e] eqn:E; unfold SFeqb in H; simpl in H.
  - exists s. reflexivity.
  - destruct s; discriminate.
  - discriminate.
  - destruct s; discriminate.
Qed.

Lemma nonzero_class : forall v : float,
  (v =? 0) = false -> Prim2SF v <> S754_zero false /\ Prim2SF v <> S754_zero true.
Proof.
  intros v H. rewrite eqb_spec in H.
  change (Prim2SF 0) with (S754_zero false) in H.
  split; intro E; rewrite E in H; discriminate.
Qed.

(** Subtracting a zero from a number that is not a zero leaves it. *)
Lemma sub_zero : forall v z : float,
  is_nan v = false -> (v =? 0) = false -> (z =? 0) = true -> v - z = v.
Proof.
  intros v z Hn Hv Hz.
  apply Prim2SF_inj. rewrite sub_spec.
  destruct (zero_class z Hz) as [sz Ez]. rewrite Ez.
  pose proof (not_nan_class v Hn) as Hnan.
  destruct (nonzero_class v Hv) as [H0 H1].
  destruct (Prim2SF v) as [s|s| |s m e].
  - destruct s; congruence.
  - reflexivity.
  - congruence.
  - reflexivity.
Qed.

(** Dividing a number that is not a zero by a zero gives an infinity, and so
    does the hundredfold of the quotient. *)
Lemma div_zero_times_100 : forall v z : float,
  is_nan v = false -> (v =? 0) = false -> (z =? 0) = true ->
  exists negative : bool,
    v / z * 100 = (if negative then neg_infinity else infinity).
Proof.
  intros v z Hn Hv Hz.
  destruct (zero_class z Hz) as [sz Ez].
  pose proof (not_nan_class v Hn) as Hnan.
  destruct (nonzero_class v Hv) as [H0 H1].
  assert (Hq : exists s, Prim2SF (v / z) = S754_infinity s).
  { rewrite div_spec, Ez.
    destruct (Prim2SF v) as [s|s| |s m e].
    - destruct s; congruence.
    - exists (xorb s sz). reflexivity.
    - congruence.
    - exists (xorb s sz). reflexivity. }
  destruct Hq as [s Es]. exists s.
  apply Prim2SF_inj. rewrite mul_spec, Es.
  destruct s; reflexivity.
Qed.

Lemma fsgn_infinity : forall negative : bool,
  fsgn (if negative then neg_infinity else infinity)
  = (if negative then "-inf" else "+inf")%string.
Proof.
  intros [|]; reflexivity.
Qed.

(** [format_2f] on values whose text Python documents or prints. *)
Example format_2f_examples :
  Float64.format_2f false 0.125%float = "0.12"
  /\ Float64.format_2f false 0.375%float = "0.38"
  /\ Float64.format_2f false 2.675%float = "2.67"
  /\ Float64.format_2f false 1234.56%float = "1234.56"
  /\ Float64.format_2f true (-0.001)%float = "-0.00"
  /\ Float64.format_2f true 0%float = "+0.00"
  /\ Float64.format_2f false 1e22%float = "10000000000000000000000.00"
  /\ Float64.format_2f true neg_infinity = "-inf".
Proof.
  repeat split.
Qed.

(* ================================================================== *)
(** * [montar_base]: the claims *)

(** C2, as amended.  In the frame [montar_base] returns, at a row whose
    previous value is a zero and whose own value is a number other than
    zero, [Delta] is the value itself, [Delta_pct] is an infinity (it is not
    the missing marker, and nothing is raised), and the label is the long
    one with [+inf] or [-inf] as its percentage term. *)
Theorem montar_base_zero_previous :
  forall (df_long : LongTable) (regional : Cell) (i : nat) (r : LongRow) (prev : float),
  let base := montar_base df_long regional in
  nth_error (base_rows base) i = Some r ->
  nth_error (Nota_anterior base) i = Some prev ->
  (prev =? 0) = true ->
  is_nan (Nota r) = false ->
  (Nota r =? 0) = false ->
  exists negative : bool,
    nth_error (Delta base) i = Some (Nota r)
    /\ nth_error (Delta_pct base) i
       = Some (if negative then neg_infinity else infinity)
    /\ is_nan (if negative then neg_infinity else infinity) = false
    /\ nth_error (label_text base) i
       = Some ("Nota " ++ fnum (Nota r) ++ " (Δ " ++ fsgn (Nota r) ++ "; "
               ++ (if negative then "-inf" else "+inf") ++ "%)")%string.
Proof.
  intros df_long regional i r prev base Hr Hprev Hz Hn Hv.
  unfold base, montar_base in *.
  set (sorted := sort_values _ _) in *.
  change (base_rows (derive sorted)) with sorted in Hr.
  destruct (derive_row sorted i r Hr) as (Hp & Hd & Hq & Hl).
  rewrite Hp in Hprev. injection Hprev as Hprev.
  rewrite Hprev in Hd, Hq, Hl.
  rewrite (sub_zero _ _ Hn Hv Hz) in Hd, Hq, Hl.
  destruct (div_zero_times_100 _ _ Hn Hv Hz) as [negative Hinf].
  rewrite Hinf in Hq, Hl.
  exists negative. repeat split; try assumption.
  - destruct negative; reflexivity.
  - rewrite Hl.
    assert (Hnz : is_nan prev = false).
    { unfold is_nan. rewrite eqb_spec.
      destruct (zero_class prev Hz) as [s Es]. rewrite Es. reflexivity. }
    rewrite Hnz. unfold long_label. rewrite fsgn_infinity. reflexivity.
Qed.

Lemma montar_base_zero_previous_witness :
  let base := montar_base (one_group "G" "c1" "c2" "c3" 0 5 9) (CellStr "G") in
  exists negative : bool,
    nth_error (Delta base) 1 = Some 5
    /\ nth_error (Delta_pct base) 1
       = Some (if negative then neg_infinity else infinity)
    /\ is_nan (if negative then neg_infinity else infinity) = false
    /\ nth_error (label_text base) 1
       = Some ("Nota " ++ fnum 5 ++ " (Δ " ++ fsgn 5 ++ "; "
               ++ (if negative then "-inf" else "+inf") ++ "%)")%string.
Proof.
  exact (montar_base_zero_previous
           (one_group "G" "c1" "c2" "c3" 0 5 9) (CellStr "G") 1
           (mk_long (CellStr "G") "c2" 5) 0
           eq_refl eq_refl eq_refl eq_refl eq_refl).
Defined.

(** C2 fails as stated: with previous value [0.0] and value [5.0],
    [Delta_pct] is [infinity], which is not missing, and the label reads
    [+inf%] where the claim has the em dash. *)
Lemma zero_previous_gives_infinity :
  let base := montar_base (one_group "G" "c1" "c2" "c3" 0 5 9) (CellStr "G") in
  nth_error (Nota_anterior base) 1 = Some 0
  /\ nth_error (map Nota (base_rows base)) 1 = Some 5
  /\ nth_error (Delta base) 1 = Some 5
  /\ nth_error (Delta_pct base) 1 = Some infinity
  /\ is_nan infinity = false
  /\ nth_error (label_text base) 1 = Some "Nota 5.00 (Δ +5.00; +inf%)"%string
  /\ nth_error (label_text base) 1 <> Some "Nota 5.00 (Δ +5.00; —%)"%string.
Proof.
  vm_compute. repeat split; try reflexivity. discriminate.
Qed.

Lemma length_append : forall a b : string,
  String.length (a ++ b) = (String.length a + String.length b)%nat.
Proof.
  induction a as [|x a IH]; intro b; [reflexivity|].
  simpl. rewrite IH. reflexivity.
Qed.

(** The two formats never coincide: the long label is the short one and
    more. *)
Lemma short_label_is_not_long : forall nota delta delta_pct : float,
  short_label nota <> long_label nota delta delta_pct.
Proof.
  intros nota delta delta_pct H.
  apply (f_equal String.length) in H.
  unfold short_label, long_label in H.
  rewrite !length_append in H. simpl in H. lia.
Qed.

(** C3, as amended.  A row of the frame [montar_base] returns gets the
    short label ["Nota {Value:.2f}"] exactly when its previous value is
    missing, that is the first row and every row that follows a row whose
    value is missing; every other row gets the long label
    ["Nota {Value:.2f} (Δ {Delta:+.2f}; {DeltaPct:+.2f}%)"].  In both, a
    missing operand is rendered as the em dash in place of its number. *)
Theorem label_text_by_previous :
  forall (df_long : LongTable) (regional : Cell) (i : nat) (r : LongRow),
  let base := montar_base df_long regional in
  nth_error (base_rows base) i = Some r ->
  exists prev delta pct : float,
    nth_error (Nota_anterior base) i = Some prev
    /\ prev = previous (map Nota (base_rows base)) i
    /\ nth_error (Delta base) i = Some delta
    /\ nth_error (Delta_pct base) i = Some pct
    /\ nth_error (label_text base) i
       = Some (if is_nan prev
               then ("Nota " ++ fnum (Nota r))%string
               else ("Nota " ++ fnum (Nota r) ++ " (Δ " ++ fsgn delta ++ "; "
                     ++ fsgn pct ++ "%)")%string)
    /\ fnum nan = "—"%string /\ fsgn nan = "—"%string.
Proof.
  intros df_long regional i r base Hr.
  unfold base, montar_base in *.
  set (sorted := sort_values _ _) in *.
  change (base_rows (derive sorted)) with sorted in *.
  destruct (derive_row sorted i r Hr) as (Hp & Hd & Hq & Hl).
  eexists _, _, _. repeat split; eassumption || reflexivity.
Qed.

Lemma label_text_by_previous_witness :
  let base := montar_base (one_group "G" "c1" "c2" "c3" 10 nan 9) (CellStr "G") in
  exists prev delta pct : float,
    nth_error (Nota_anterior base) 2 = Some prev
    /\ prev = previous (map Nota (base_rows base)) 2
    /\ nth_error (Delta base) 2 = Some delta
    /\ nth_error (Delta_pct base) 2 = Some pct
    /\ nth_error (label_text base) 2
       = Some (if is_nan prev
               then ("Nota " ++ fnum 9)%string
               else ("Nota " ++ fnum 9 ++ " (Δ " ++ fsgn delta ++ "; "
                     ++ fsgn pct ++ "%)")%string)
    /\ fnum nan = "—"%string /\ fsgn nan = "—"%string.
Proof.
  exact (label_text_by_previous
           (one_group "G" "c1" "c2" "c3" 10 nan 9) (CellStr "G") 2
           (mk_long (CellStr "G") "c3" 9) eq_refl).
Defined.

(** C3 fails as stated: over the values [10.0, missing, 9.0] the third row,
    whose previous value is missing, gets the short label, not the long one
    with em dashes. *)
Lemma short_label_after_missing_value :
  let base := montar_base (one_group "G" "c1" "c2" "c3" 10 nan 9) (CellStr "G") in
  map Nota (base_rows base) = [10; nan; 9]
  /\ Nota_anterior base = [nan; 10; nan]
  /\ label_text base
     = ["Nota 10.00"; "Nota — (Δ —; —%)"; "Nota 9.00"]%string
  /\ nth_error (label_text base) 2 <> Some "Nota 9.00 (Δ —; —%)"%string.
Proof.
  vm_compute. repeat split; try reflexivity. discriminate.
Qed.

(** The orders three rows can come in. *)
Lemma Permutation_three : forall (A : Type) (a b c : A) (l : list A),
  Permutation l [a; b; c] ->
  l = [a; b; c] \/ l = [a; c; b] \/ l = [b; a; c]
  \/ l = [b; c; a] \/ l = [c; a; b] \/ l = [c; b; a].
Proof.
  intros A a b c l H.
  destruct (Permutation_vs_cons_inv H) as (l1 & l2 & ->).
  apply Permutation_sym, Permutation_cons_app_inv in H.
  apply Permutation_length_2_inv in H.
  destruct l1 as [|x [|y [|z l1]]]; cbn [app] in *;
    destruct H as [H|H]; inversion H; subst; auto 10.
Qed.

(** C4.  For a group whose rows in the long table are the rounds
    [c1, c2, c3] with values [10.0, 12.0, 9.0], in whatever order the table
    holds them and whatever other groups it holds, [montar_base] puts them
    in the order of the rounds and gives previous values
    [missing, 10.0, 12.0], deltas [missing, 2.0, -3.0], percentages
    [missing, 20.0, -25.0], first label ["Nota 10.00"] and second label
    ["Nota 12.00 (Δ +2.00; +20.00%)"]. *)
Theorem montar_base_three_rounds :
  forall (df_long : LongTable) (regional g1 g2 g3 : Cell) (c1 c2 c3 : string),
  categories df_long = [c1; c2; c3] ->
  c1 <> c2 -> c1 <> c3 -> c2 <> c3 ->
  Permutation
    (filter (fun r => cell_eq (Regional r) regional) (rows df_long))
    [mk_long g1 c1 10; mk_long g2 c2 12; mk_long g3 c3 9] ->
  let base := montar_base df_long regional in
  map Avaliacao (base_rows base) = [c1; c2; c3]
  /\ Nota_anterior base = [nan; 10; 12]
  /\ Delta base = [nan; 2; -3]
  /\ Delta_pct base = [nan; 20; -25]
  /\ nth_error (label_text base) 0 = Some "Nota 10.00"%string
  /\ nth_error (label_text base) 1 = Some "Nota 12.00 (Δ +2.00; +20.00%)"%string.
Proof.
  intros df_long regional g1 g2 g3 c1 c2 c3 Hcats H12 H13 H23 Hsel base.
  assert (Hbase : base = derive [mk_long g1 c1 10; mk_long g2 c2 12; mk_long g3 c3 9]).
  { unfold base, montar_base. rewrite Hcats.
    assert (H21 : c2 <> c1) by congruence.
    assert (H31 : c3 <> c1) by congruence.
    assert (H32 : c3 <> c2) by congruence.
    apply String.eqb_neq in H12, H13, H23, H21, H31, H32.
    destruct (Permutation_three _ _ _ _ _ Hsel) as [E|[E|[E|[E|[E|E]]]]]; rewrite E;
    repeat progress
      (cbn [sort_values insert_row Avaliacao category_code code_le option_map Nat.leb];
       rewrite ?String.eqb_refl, ?H12, ?H13, ?H23, ?H21, ?H31, ?H32);
    reflexivity. }
  rewrite Hbase. vm_compute. repeat split; reflexivity.
Qed.

Lemma montar_base_three_rounds_witness :
  let base := montar_base two_groups_unordered (CellStr "G") in
  map Avaliacao (base_rows base) = ["c1"; "c2"; "c3"]%string
  /\ Nota_anterior base = [nan; 10; 12]
  /\ Delta base = [nan; 2; -3]
  /\ Delta_pct base = [nan; 20; -25]
  /\ nth_error (label_text base) 0 = Some "Nota 10.00"%string
  /\ nth_error (label_text base) 1 = Some "Nota 12.00 (Δ +2.00; +20.00%)"%string.
Proof.
  apply (montar_base_three_rounds two_groups_unordered (CellStr "G")
           (CellStr "G") (CellStr "G") (CellStr "G") "c1" "c2" "c3");
    try (reflexivity || discriminate).
  exact (Permutation_cons_app
           [mk_long (CellStr "G") "c1" 10; mk_long (CellStr "G") "c2" 12] []
           (mk_long (CellStr "G") "c3" 9) (Permutation_refl _)).
Defined.

Local Open Scope string_scope.

(* ================================================================== *)
(** * Python [str] operations: facts *)

Lemma startswith_char : forall c a s,
  startswith (String c "") (String a s) = Ascii.eqb c a.
Proof.
  intros. simpl. apply andb_true_r.
Qed.

(** Replacing a one-character pattern works character by character. *)
Lemma replace_char : forall c new s,
  replace s (String c "") new = subst_char c new s.
Proof.
  intros c new s. unfold replace.
  induction s as [|a s IH]; [reflexivity|].
  cbn [replace_from subst_char]. rewrite startswith_char.
  cbn [String.length Nat.sub]. rewrite IH. reflexivity.
Qed.

Lemma contains_char : forall c s,
  contains (String c "") s = true <-> exists s1 s2, s = s1 ++ String c s2.
Proof.
  intros c s. induction s as [|a s IH].
  - simpl. split; [discriminate|]. intros (s1 & s2 & H). destruct s1; discriminate.
  - cbn [contains]. rewrite startswith_char, orb_true_iff, IH. split.
    + intros [H|(s1 & s2 & H)].
      * apply Ascii.eqb_eq in H. subst. exists "", s. reflexivity.
      * subst. exists (String a s1), s2. reflexivity.
    + intros (s1 & s2 & H). destruct s1 as [|b s1]; simpl in H; inversion H; subst.
      * left. apply Ascii.eqb_refl.
      * right. eauto.
Qed.

Lemma contains_separator : forall c s,
  is_separator c = true ->
  contains (String c "") s = existsb (Ascii.eqb c) (separators s).
Proof.
  intros c s Hc. induction s as [|a s IH]; [reflexivity|].
  cbn [contains separators]. rewrite startswith_char, IH.
  destruct (Ascii.eqb c a) eqn:E.
  - apply Ascii.eqb_eq in E. subst a. rewrite Hc. simpl. rewrite Ascii.eqb_refl. reflexivity.
  - destruct (is_separator a); simpl; rewrite ?E; reflexivity.
Qed.

Lemma separators_app : forall s t,
  separators (s ++ t) = (separators s ++ separators t)%list.
Proof.
  induction s as [|a s IH]; intro t; [reflexivity|].
  simpl. rewrite IH. destruct (is_separator a); reflexivity.
Qed.

Lemma startswith_split : forall p s,
  startswith p s = true ->
  s = p ++ substring (String.length p) (String.length s - String.length p) s.
Proof.
  induction p as [|a p IH]; intros s H.
  - simpl. rewrite Nat.sub_0_r.
    clear H. induction s as [|b s IHs]; [reflexivity|]. simpl. f_equal. exact IHs.
  - destruct s as [|b s]; [discriminate|].
    simpl in H. apply andb_true_iff in H as [Hab Hp].
    apply Ascii.eqb_eq in Hab. subst b. simpl. f_equal. apply IH. exact Hp.
Qed.

Lemma plain_prefix_startswith : forall p s,
  separators p = [] -> startswith p s = true -> plain_prefix (String.length p) s.
Proof.
  induction p as [|a p IH]; intros s Hp H; [exact I|].
  destruct s as [|b s]; [exact I|].
  simpl in H. apply andb_true_iff in H as [Hab Hs].
  apply Ascii.eqb_eq in Hab. subst b.
  simpl in Hp. destruct (is_separator a) eqn:Ea; [discriminate|].
  simpl. split; [exact Ea|]. apply IH; assumption.
Qed.

Lemma separators_replace_from : forall old,
  old <> "" -> separators old = [] ->
  forall s k, plain_prefix k s ->
  separators (replace_from old "" k s) = separators s.
Proof.
  intros old Hne Hold. induction s as [|c s IH]; intros k Hk; [reflexivity|].
  destruct k as [|k].
  - cbn [replace_from]. destruct (startswith old (String c s)) eqn:E.
    + pose proof (plain_prefix_startswith old _ Hold E) as Hp.
      destruct old as [|a old']; [congruence|].
      cbn [String.length Nat.sub] in *. rewrite Nat.sub_0_r.
      simpl in Hp. destruct Hp as [Hc Hp].
      simpl. rewrite Hc. apply IH. exact Hp.
    + simpl. rewrite IH by exact I. reflexivity.
  - simpl in Hk. destruct Hk as [Hc Hk].
    cbn [replace_from]. simpl. rewrite Hc. apply IH. exact Hk.
Qed.

Lemma separators_replace : forall s old,
  old <> "" -> separators old = [] ->
  separators (replace s old "") = separators s.
Proof.
  intros s old Hne Hold. unfold replace.
  apply separators_replace_from; [assumption|assumption|exact I].
Qed.

Lemma drop_one_of_split : forall ws s s',
  drop_one_of ws s = Some s' -> exists w, In w ws /\ s = w ++ s'.
Proof.
  induction ws as [|w ws IH]; intros s s' H; [discriminate|].
  simpl in H. destruct (startswith w s) eqn:E.
  - injection H as H. exists w. split; [left; reflexivity|].
    rewrite <- H. apply startswith_split. exact E.
  - destruct (IH _ _ H) as (w' & Hin & Hs). exists w'. split; [right; exact Hin|exact Hs].
Qed.

Lemma whitespace_plain : forall w, In w whitespace -> separators w = [].
Proof.
  assert (H : forallb (fun w => match separators w with [] => true | _ => false end)
                      whitespace = true) by reflexivity.
  rewrite forallb_forall in H. intros w Hw. specialize (H w Hw).
  destruct (separators w); [reflexivity|discriminate].
Qed.

Lemma separators_lstrip_fuel : forall n s,
  separators (lstrip_fuel n s) = separators s.
Proof.
  induction n as [|n IH]; intro s; [reflexivity|].
  cbn [lstrip_fuel].
  destruct (drop_one_of whitespace s) as [s'|] eqn:E; [|reflexivity].
  destruct (drop_one_of_split _ _ _ E) as (w & Hw & Hs).
  rewrite IH. subst s. rewrite separators_app, (whitespace_plain w Hw). reflexivity.
Qed.

Lemma separators_lstrip : forall s, separators (lstrip s) = separators s.
Proof.
  intro s. apply separators_lstrip_fuel.
Qed.

Lemma separators_rstrip : forall s, separators (rstrip s) = separators s.
Proof.
  induction s as [|c s IH]; [reflexivity|].
  cbn [rstrip]. destruct (isblank (String c s)) eqn:E.
  - unfold isblank in E. rewrite <- (separators_lstrip (String c s)).
    destruct (lstrip (String c s)); [reflexivity|discriminate].
  - simpl. rewrite IH. reflexivity.
Qed.

Lemma separators_strip : forall s, separators (strip s) = separators s.
Proof.
  intro s. unfold strip. rewrite separators_rstrip. apply separators_lstrip.
Qed.

(** Cleaning keeps every comma and dot, in their order. *)
Lemma separators_cleaned : forall x, separators (cleaned x) = separators x.
Proof.
  intro x. unfold cleaned, symbols. cbn [fold_left].
  rewrite !separators_replace by (discriminate || reflexivity).
  apply separators_strip.
Qed.

Lemma startswith_app : forall p t, startswith p (p ++ t) = true.
Proof.
  induction p as [|a p IH]; intro t; [reflexivity|].
  simpl. rewrite Ascii.eqb_refl, IH. reflexivity.
Qed.

Lemma append_assoc : forall a b c : string, (a ++ b) ++ c = a ++ b ++ c.
Proof.
  induction a as [|x a IH]; intros b c; [reflexivity|].
  simpl. rewrite IH. reflexivity.
Qed.

(** [sub in s] holds when [s] is some text, [sub], and some more text. *)
Lemma contains_split : forall sub s,
  contains sub s = true <-> exists s1 s2, s = s1 ++ sub ++ s2.
Proof.
  intros sub s. induction s as [|a s IH].
  - cbn [contains]. rewrite orb_false_r. split.
    + intro H. exists "", "". destruct sub; [reflexivity|discriminate].
    + intros (s1 & s2 & H). destruct s1; [|discriminate].
      destruct sub; [reflexivity|discriminate].
  - cbn [contains]. rewrite orb_true_iff, IH. split.
    + intros [H|(s1 & s2 & H)].
      * exists "". eexists. apply startswith_split. exact H.
      * exists (String a s1), s2. simpl. rewrite H. reflexivity.
    + intros (s1 & s2 & H). destruct s1 as [|b s1].
      * left. simpl in H. rewrite H. apply startswith_app.
      * right. simpl in H. inversion H. eauto.
Qed.

Lemma lower_app : forall a b, lower (a ++ b) = lower a ++ lower b.
Proof.
  induction a as [|x a IH]; intro b; [reflexivity|].
  simpl. rewrite IH. reflexivity.
Qed.

Lemma lower_split : forall t1 t2 s,
  lower s = t1 ++ t2 ->
  exists s1 s2, s = s1 ++ s2 /\ lower s1 = t1 /\ lower s2 = t2.
Proof.
  induction t1 as [|x t1 IH]; intros t2 s H.
  - exists "", s. auto.
  - destruct s as [|a s]; [discriminate|].
    simpl in H. inversion H as [[Hx Hs]].
    destruct (IH _ _ Hs) as (s1 & s2 & E & H1 & H2).
    exists (String a s1), s2. subst. auto.
Qed.

Lemma subst_char_absent : forall c new s,
  contains (String c "") s = false -> subst_char c new s = s.
Proof.
  intros c new s. induction s as [|a s IH]; intro H; [reflexivity|].
  cbn [contains] in H. rewrite startswith_char in H.
  apply orb_false_iff in H as [Hca Hs].
  cbn [subst_char]. rewrite Hca, IH by exact Hs. reflexivity.
Qed.

Lemma is_separator_cases : forall a,
  is_separator a = true -> a = ","%char \/ a = "."%char.
Proof.
  intros a H. unfold is_separator in H. apply orb_true_iff in H as [H|H];
    apply Ascii.eqb_eq in H; auto.
Qed.

(** [found r]: the search below found an offset [r]; [not_found H]: it
    found none, by [H]; [plain_character Ea E1 E2]: the character of [Ea] is
    neither separator. *)
Ltac found r :=
  replace (0 <=? r)%Z with true by (symmetry; apply Z.leb_le; lia).

Ltac not_found H :=
  rewrite H; change (0 <=? -1)%Z with false; cbv iota.

Ltac plain_character Ea E1 E2 :=
  unfold is_separator in Ea; apply orb_false_iff in Ea as [E1 E2];
  rewrite Ascii.eqb_sym in E1; rewrite Ascii.eqb_sym in E2.

Lemma rfind_from_range : forall c s i,
  rfind_from (String c "") s i = (-1)%Z \/ (i <= rfind_from (String c "") s i)%Z.
Proof.
  intros c s. induction s as [|a s IH]; intro i.
  - left. reflexivity.
  - cbn [rfind_from]. rewrite startswith_char.
    destruct (IH (i + 1)%Z) as [H|H].
    + not_found H.
      destruct (Ascii.eqb c a); [right; lia|left; reflexivity].
    + destruct (0 <=? rfind_from (String c "") s (i + 1))%Z eqn:E.
      * right. lia.
      * destruct (Ascii.eqb c a); [right; lia|left; reflexivity].
Qed.

(** [rfind] of the two separators against the later separator. *)
Lemma rfind_from_later : forall s i, (0 <= i)%Z ->
  match later_separator s with
  | None => rfind_from "," s i = (-1)%Z /\ rfind_from "." s i = (-1)%Z
  | Some d =>
      (d = ","%char /\ (rfind_from "." s i < rfind_from "," s i)%Z
       /\ (i <= rfind_from "," s i)%Z)
      \/ (d = "."%char /\ (rfind_from "," s i < rfind_from "." s i)%Z
          /\ (i <= rfind_from "." s i)%Z)
  end.
Proof.
  induction s as [|a s IH]; intros i Hi.
  - simpl. split; reflexivity.
  - specialize (IH (i + 1)%Z ltac:(lia)).
    cbn [later_separator rfind_from]. rewrite !startswith_char.
    destruct (later_separator s) as [d|].
    + destruct IH as [(Hd & Hlt & Hle)|(Hd & Hlt & Hle)]; [left|right];
        (split; [exact Hd|]).
      * found (rfind_from "," s (i + 1)).
        destruct (rfind_from_range "."%char s (i + 1)%Z) as [H|H].
        -- not_found H.
           destruct (Ascii.eqb "." a); lia.
        -- found (rfind_from "." s (i + 1)).
           lia.
      * found (rfind_from "." s (i + 1)).
        destruct (rfind_from_range ","%char s (i + 1)%Z) as [H|H].
        -- not_found H.
           destruct (Ascii.eqb "," a); lia.
        -- found (rfind_from "," s (i + 1)).
           lia.
    + destruct IH as [Hc Hd]. not_found Hc. not_found Hd.
      destruct (is_separator a) eqn:Ea.
      * destruct (is_separator_cases a Ea) as [E|E]; subst a;
          change (Ascii.eqb "," ",") with true; change (Ascii.eqb "." ".") with true;
          change (Ascii.eqb "," ".") with false; change (Ascii.eqb "." ",") with false;
          cbv iota; [left|right]; (split; [reflexivity|lia]).
      * plain_character Ea E1 E2. rewrite E1, E2. split; reflexivity.
Qed.

Lemma comma_as_decimal : forall s,
  replace (replace s "." "") "," "." = with_decimal_separator "," s.
Proof.
  intro s. rewrite !replace_char.
  induction s as [|a s IH]; [reflexivity|].
  cbn [subst_char with_decimal_separator].
  destruct (is_separator a) eqn:Ea.
  - destruct (is_separator_cases a Ea) as [E|E]; subst a; simpl; rewrite IH; reflexivity.
  - plain_character Ea E1 E2.
    rewrite E2. cbn [subst_char]. rewrite E1, IH. reflexivity.
Qed.

Lemma dot_as_decimal : forall s,
  replace s "," "" = with_decimal_separator "." s.
Proof.
  intro s. rewrite replace_char.
  induction s as [|a s IH]; [reflexivity|].
  cbn [subst_char with_decimal_separator].
  destruct (is_separator a) eqn:Ea.
  - destruct (is_separator_cases a Ea) as [E|E]; subst a; simpl; rewrite IH; reflexivity.
  - plain_character Ea E1 E2. rewrite E1, IH. reflexivity.
Qed.

Lemma later_separator_separators : forall s,
  later_separator s = last_of (separators s).
Proof.
  induction s as [|a s IH]; [reflexivity|].
  cbn [later_separator separators]. rewrite IH.
  destruct (is_separator a); cbn [last_of]; destruct (last_of (separators s)); reflexivity.
Qed.

Lemma later_separator_exists : forall s,
  contains "," s = true -> exists d, later_separator s = Some d.
Proof.
  intros s H. rewrite later_separator_separators.
  rewrite (contains_separator ","%char) in H by reflexivity.
  destruct (separators s) as [|a l]; [discriminate|].
  simpl. destruct (last_of l); eauto.
Qed.

(** Lines 42-46. *)
Lemma canonical_both : forall s d,
  contains "," s = true -> contains "." s = true ->
  later_separator s = Some d ->
  canonical s = with_decimal_separator d s.
Proof.
  intros s d Hc Hd Hl. unfold canonical, rfind. rewrite Hc, Hd. cbn [andb].
  pose proof (rfind_from_later s 0%Z ltac:(lia)) as H. rewrite Hl in H.
  destruct H as [(E & Hlt & _)|(E & Hlt & _)]; subst d.
  - replace (rfind_from "," s 0 >? rfind_from "." s 0)%Z with true
      by (symmetry; apply Z.gtb_lt; lia).
    apply comma_as_decimal.
  - replace (rfind_from "," s 0 >? rfind_from "." s 0)%Z with false
      by (symmetry; rewrite Z.gtb_ltb; apply Z.ltb_ge; lia).
    apply dot_as_decimal.
Qed.

(** Lines 47-48. *)
Lemma canonical_comma_only : forall s,
  contains "," s = true -> contains "." s = false ->
  canonical s = with_decimal_separator "," s.
Proof.
  intros s Hc Hd. unfold canonical. rewrite Hc, Hd. cbn [andb].
  apply comma_as_decimal.
Qed.

(** Lines 49-50. *)
Lemma canonical_no_comma : forall s,
  contains "," s = false -> canonical s = s.
Proof.
  intros s Hc. unfold canonical. rewrite Hc. cbn [andb].
  rewrite replace_char. apply subst_char_absent. exact Hc.
Qed.

Lemma contains_cleaned : forall c x,
  is_separator c = true ->
  contains (String c "") (cleaned x) = contains (String c "") x.
Proof.
  intros c x Hc. rewrite !(contains_separator c) by exact Hc.
  rewrite separators_cleaned. reflexivity.
Qed.

Lemma later_separator_cleaned : forall x,
  later_separator (cleaned x) = later_separator x.
Proof.
  intro x. rewrite !later_separator_separators, separators_cleaned. reflexivity.
Qed.

(* ================================================================== *)
(** * [parse_br_number]: the claims *)

Local Open Scope float_scope.

(** C5.  For an input with both a comma and a dot, [parse_br_number] reads
    the separator that occurs later as the decimal point and removes the
    other one; ["1.234,56"] and ["1,234.56"] both give [1234.56]. *)
Theorem later_separator_is_decimal : forall x : string,
  contains "," x = true -> contains "." x = true ->
  (exists d : ascii,
      later_separator x = Some d
      /\ canonical (cleaned x) = with_decimal_separator d (cleaned x)
      /\ parse_br_number (CellStr x)
         = Pandas.to_numeric (with_decimal_separator d (cleaned x)) Pandas.errors_coerce)
  /\ parse_br_number (CellStr "1.234,56") = Ok 1234.56
  /\ parse_br_number (CellStr "1,234.56") = Ok 1234.56.
Proof.
  intros x Hc Hd. split; [|split; reflexivity].
  destruct (later_separator_exists x Hc) as [d Hl]. exists d.
  assert (E : canonical (cleaned x) = with_decimal_separator d (cleaned x)).
  { apply canonical_both.
    - rewrite (contains_cleaned ","%char) by reflexivity. exact Hc.
    - rewrite (contains_cleaned "."%char) by reflexivity. exact Hd.
    - rewrite later_separator_cleaned. exact Hl. }
  split; [exact Hl|]. split; [exact E|].
  unfold parse_br_number. rewrite E. reflexivity.
Qed.

Lemma later_separator_is_decimal_witness :
  (exists d : ascii,
      later_separator "1.234,56" = Some d
      /\ canonical (cleaned "1.234,56") = with_decimal_separator d (cleaned "1.234,56")
      /\ parse_br_number (CellStr "1.234,56")
         = Pandas.to_numeric (with_decimal_separator d (cleaned "1.234,56"))
                             Pandas.errors_coerce)
  /\ parse_br_number (CellStr "1.234,56") = Ok 1234.56
  /\ parse_br_number (CellStr "1,234.56") = Ok 1234.56.
Proof.
  exact (later_separator_is_decimal "1.234,56" eq_refl eq_refl).
Defined.

(** C9.  For an input with a comma and no dot, [parse_br_number] reads the
    comma as the decimal point; ["452,74"] gives [452.74]. *)
Theorem comma_alone_is_decimal : forall x : string,
  contains "," x = true -> contains "." x = false ->
  canonical (cleaned x) = with_decimal_separator "," (cleaned x)
  /\ parse_br_number (CellStr x)
     = Pandas.to_numeric (with_decimal_separator "," (cleaned x)) Pandas.errors_coerce
  /\ parse_br_number (CellStr "452,74") = Ok 452.74.
Proof.
  intros x Hc Hd.
  assert (E : canonical (cleaned x) = with_decimal_separator "," (cleaned x)).
  { apply canonical_comma_only.
    - rewrite (contains_cleaned ","%char) by reflexivity. exact Hc.
    - rewrite (contains_cleaned "."%char) by reflexivity. exact Hd. }
  split; [exact E|]. split; [|reflexivity].
  unfold parse_br_number. rewrite E. reflexivity.
Qed.

Lemma comma_alone_is_decimal_witness :
  canonical (cleaned "452,74") = with_decimal_separator "," (cleaned "452,74")
  /\ parse_br_number (CellStr "452,74")
     = Pandas.to_numeric (with_decimal_separator "," (cleaned "452,74"))
                         Pandas.errors_coerce
  /\ parse_br_number (CellStr "452,74") = Ok 452.74.
Proof.
  exact (comma_alone_is_decimal "452,74" eq_refl eq_refl).
Defined.

(** C6.  For an input with a dot and no comma, the dot stays where it is as
    the decimal point: the text handed to the float parser is the cleaned
    input, with every dot of the input; ["1.234"] gives [1.234], not
    [1234]. *)
Theorem dot_alone_is_kept : forall x : string,
  contains "," x = false -> contains "." x = true ->
  canonical (cleaned x) = cleaned x
  /\ separators (cleaned x) = separators x
  /\ parse_br_number (CellStr x) = Pandas.to_numeric (cleaned x) Pandas.errors_coerce
  /\ parse_br_number (CellStr "1.234") = Ok 1.234
  /\ parse_br_number (CellStr "1.234") <> Ok 1234.
Proof.
  intros x Hc Hd.
  assert (E : canonical (cleaned x) = cleaned x).
  { apply canonical_no_comma.
    rewrite (contains_cleaned ","%char) by reflexivity. exact Hc. }
  split; [exact E|]. split; [apply separators_cleaned|].
  split; [|split; [reflexivity|]].
  - unfold parse_br_number. rewrite E. reflexivity.
  - intro H.
    assert (H' : match parse_br_number (CellStr "1.234") with
                 | Ok v => (v =? 1234)
                 | Raise _ => false
                 end = true) by (rewrite H; reflexivity).
    vm_compute in H'. discriminate.
Qed.

Lemma dot_alone_is_kept_witness :
  canonical (cleaned "1.234") = cleaned "1.234"
  /\ separators (cleaned "1.234") = separators "1.234"
  /\ parse_br_number (CellStr "1.234")
     = Pandas.to_numeric (cleaned "1.234") Pandas.errors_coerce
  /\ parse_br_number (CellStr "1.234") = Ok 1.234
  /\ parse_br_number (CellStr "1.234") <> Ok 1234.
Proof.
  exact (dot_alone_is_kept "1.234" eq_refl eq_refl).
Defined.

Lemma to_numeric_coerce_ok : forall s,
  exists v, Pandas.to_numeric s Pandas.errors_coerce = Ok v.
Proof.
  intro s. unfold Pandas.to_numeric.
  destruct s; [eauto|]. destruct (Pandas.parse_float _); eauto.
Qed.

(** C10.  [parse_br_number] gives the missing marker on [""], [None] and
    ["abc"], raises on no input, and gives the missing marker on every text
    whose canonical form the float parser does not read. *)
Theorem parse_br_number_never_raises :
  parse_br_number (CellStr "") = Ok nan
  /\ parse_br_number CellNone = Ok nan
  /\ parse_br_number (CellStr "abc") = Ok nan
  /\ (forall x : Cell, exists v : float, parse_br_number x = Ok v)
  /\ (forall x : string,
        Pandas.parse_float (canonical (cleaned x)) = None ->
        parse_br_number (CellStr x) = Ok nan).
Proof.
  repeat split; try reflexivity.
  - intros [|f|x]; cbn [parse_br_number].
    + eauto.
    + destruct (is_nan f); eauto.
    + apply to_numeric_coerce_ok.
  - intros x H. cbn [parse_br_number]. unfold Pandas.to_numeric. rewrite H.
    destruct (canonical (cleaned x)); reflexivity.
Qed.

(** Under [errors="raise"] the same text is an error: the missing marker is
    the work of [errors="coerce"] on line 51. *)
Example to_numeric_raise_mode :
  Pandas.to_numeric (canonical (cleaned "abc")) Pandas.errors_raise = Raise ValueError
  /\ Pandas.parse_float (canonical (cleaned "abc")) = None.
Proof.
  repeat split.
Qed.

Example parse_br_number_examples :
  parse_br_number (CellStr " R$ 1.234,56 ") = Ok 1234.56
  /\ parse_br_number (CellStr "85,5%") = Ok 85.5
  /\ parse_br_number (CellStr "-12") = Ok (-12)
  /\ parse_br_number (CellStr "1,234,567") = Ok nan
  /\ parse_br_number (CellNum 7.5) = Ok 7.5.
Proof.
  repeat split.
Qed.

Local Open Scope nat_scope.
Local Open Scope string_scope.

(* ================================================================== *)
(** * [preparar_df]: facts *)

(** The attendance marker, whatever the case of its letters: the label holds
    a run of characters that lowers to [presen]. *)
Lemma is_presence_label_spec : forall s : string,
  is_presence_label (CellStr s) = true
  <-> exists s1 w s2, s = s1 ++ w ++ s2 /\ lower w = "presen".
Proof.
  intro s. cbn [is_presence_label]. rewrite contains_split. split.
  - intros (t1 & t2 & H).
    destruct (lower_split _ _ _ H) as (s1 & r & E & H1 & Hr).
    destruct (lower_split _ _ _ Hr) as (w & s2 & E' & Hw & H2).
    exists s1, w, s2. subst. auto.
  - intros (s1 & w & s2 & E & Hw).
    exists (lower s1), (lower s2). subst s. rewrite !lower_app, Hw. reflexivity.
Qed.

Example is_presence_label_examples :
  is_presence_label (CellStr "Presença") = true
  /\ is_presence_label (CellStr "PRESENÇA") = true
  /\ is_presence_label (CellStr "% de presentes") = true
  /\ is_presence_label (CellStr "Norte") = false
  /\ is_presence_label (CellNum 3) = false
  /\ is_presence_label CellNone = false.
Proof.
  repeat split.
Qed.

Lemma parse_br_number_ok : forall x : Cell, exists v, parse_br_number x = Ok v.
Proof.
  intros [|f|x]; cbn [parse_br_number].
  - eauto.
  - destruct (is_nan f); eauto.
  - apply to_numeric_coerce_ok.
Qed.

Lemma mapM_parse_ok : forall v : list Cell,
  exists fs, mapM parse_br_number v = Ok fs /\ List.length fs = List.length v.
Proof.
  induction v as [|c v IH].
  - exists []. split; reflexivity.
  - destruct (parse_br_number_ok c) as [f Hf]. destruct IH as (fs & Hfs & Hlen).
    exists (f :: fs). cbn [mapM]. rewrite Hf. cbn [bind]. rewrite Hfs. cbn [bind].
    split; [reflexivity|]. simpl. rewrite Hlen. reflexivity.
Qed.

Lemma normalize_column_ok : forall c : Column,
  exists fs, normalize_column c = Ok fs /\ List.length fs = height c.
Proof.
  intros [v|v]; unfold height; cbn [normalize_column cells].
  - exists v. split; [reflexivity|]. rewrite length_map. reflexivity.
  - apply mapM_parse_ok.
Qed.

Lemma normalize_columns_ok : forall cols : list (string * Column),
  exists vs,
    normalize_columns cols = Ok vs
    /\ map fst vs = map fst cols
    /\ forall N, Forall (fun nc => height (snd nc) = N) cols ->
                 Forall (fun nv => List.length (snd nv) = N) vs.
Proof.
  induction cols as [|[name c] cols IH].
  - exists []. repeat split; auto.
  - destruct (normalize_column_ok c) as (v & Hv & Hlen).
    destruct IH as (vs & Hvs & Hnames & Hlens).
    exists ((name, v) :: vs). cbn [normalize_columns].
    rewrite Hv. cbn [bind]. rewrite Hvs. cbn [bind].
    split; [reflexivity|]. split.
    + simpl. rewrite Hnames. reflexivity.
    + intros N HN. inversion HN; subst. constructor; [exact Hlen|auto].
Qed.

Lemma removelast_map : forall (A B : Type) (f : A -> B) (l : list A),
  removelast (map f l) = map f (removelast l).
Proof.
  intros A B f. induction l as [|a l IH]; [reflexivity|].
  destruct l as [|b l]; [reflexivity|].
  change (removelast (map f (a :: b :: l))) with (f a :: removelast (map f (b :: l))).
  rewrite IH. reflexivity.
Qed.

Lemma cells_drop_last : forall c, cells (drop_last c) = removelast (cells c).
Proof.
  intros [v|v]; cbn [drop_last cells]; [|reflexivity].
  symmetry. apply removelast_map.
Qed.

Lemma length_removelast_pred : forall (A : Type) (l : list A),
  List.length (removelast l) = List.length l - 1.
Proof.
  intros A. induction l as [|a l IH]; [reflexivity|].
  destruct l as [|b l]; [reflexivity|].
  change (removelast (a :: b :: l)) with (a :: removelast (b :: l)).
  cbn [List.length]. rewrite IH. simpl. lia.
Qed.

Lemma height_drop_last : forall c, height (drop_last c) = height c - 1.
Proof.
  intro c. unfold height. rewrite cells_drop_last. apply length_removelast_pred.
Qed.

Lemma map_of_flat_map : forall (A B C : Type) (f : B -> C) (g : A -> list B) (l : list A),
  map f (flat_map g l) = flat_map (fun a => map f (g a)) l.
Proof.
  intros A B C f g. induction l as [|a l IH]; [reflexivity|].
  simpl. rewrite map_app, IH. reflexivity.
Qed.

Lemma filter_of_flat_map : forall (A B : Type) (p : B -> bool) (g : A -> list B) (l : list A),
  filter p (flat_map g l) = flat_map (fun a => filter p (g a)) l.
Proof.
  intros A B p g. induction l as [|a l IH]; [reflexivity|].
  simpl. rewrite filter_app, IH. reflexivity.
Qed.

Lemma flat_map_ext_Forall : forall (A B : Type) (P : A -> Prop) (f g : A -> list B) (l : list A),
  Forall P l -> (forall a, P a -> f a = g a) -> flat_map f l = flat_map g l.
Proof.
  intros A B P f g l Hl Hfg. induction Hl as [|a l Ha Hl IH]; [reflexivity|].
  simpl. rewrite IH, (Hfg a Ha). reflexivity.
Qed.

Lemma flat_map_map : forall (A B C : Type) (f : A -> B) (g : B -> list C) (l : list A),
  flat_map g (map f l) = flat_map (fun a => g (f a)) l.
Proof.
  intros A B C f g. induction l as [|a l IH]; [reflexivity|].
  simpl. rewrite IH. reflexivity.
Qed.

Lemma length_flat_map_const : forall (A B : Type) (g : A -> list B) (l : list A) n,
  (forall a, In a l -> List.length (g a) = n) ->
  List.length (flat_map g l) = n * List.length l.
Proof.
  intros A B g l n. induction l as [|a l IH]; intro H.
  - simpl. lia.
  - simpl. rewrite length_app, IH, (H a) by (intros; try apply H; simpl; auto). lia.
Qed.

(** One block of [melt]: a value column against the id column. *)
Section Block.

Variable name : string.

Lemma block_Regional : forall reg vals,
  List.length vals = List.length reg -> map Regional (block name reg vals) = reg.
Proof.
  induction reg as [|r reg IH]; intros vals H.
  - reflexivity.
  - destruct vals as [|v vals]; [discriminate|].
    simpl. f_equal. apply IH. simpl in H. lia.
Qed.

Lemma block_Avaliacao : forall reg vals,
  List.length vals = List.length reg ->
  map Avaliacao (block name reg vals) = repeat name (List.length reg).
Proof.
  induction reg as [|r reg IH]; intros vals H.
  - reflexivity.
  - destruct vals as [|v vals]; [discriminate|].
    simpl. f_equal. apply IH. simpl in H. lia.
Qed.

Lemma block_selected : forall g reg vals,
  List.length vals = List.length reg ->
  map Avaliacao (filter (fun r => cell_eq (Regional r) g) (block name reg vals))
  = repeat name (List.length (filter (fun c => cell_eq c g) reg)).
Proof.
  intros g. induction reg as [|r reg IH]; intros vals H.
  - reflexivity.
  - destruct vals as [|v vals]; [discriminate|].
    cbn [block zip_with filter Regional]. fold (block name reg vals).
    destruct (cell_eq r g); simpl; rewrite IH by (simpl in H; lia); reflexivity.
Qed.

End Block.

(** Line 61 on a sheet whose first label labels no other column. *)
Lemma rename_first_fresh : forall name c0 avals,
  existsb (String.eqb name) (map fst avals) = false ->
  exists name', rename_first ((name, c0) :: avals) = (name', c0) :: avals.
Proof.
  intros name c0 avals H. cbn [rename_first].
  destruct (negb (name =? "Regional")); [|eauto].
  cbn [map fst snd]. rewrite String.eqb_refl. exists "Regional". f_equal.
  induction avals as [|[n c] avals IH]; [reflexivity|].
  cbn [map fst existsb] in *. apply orb_false_iff in H as [Hn H].
  rewrite String.eqb_sym, Hn, (IH H). reflexivity.
Qed.

(** Line 61 leaves the columns as they are, whatever their labels. *)
Lemma rename_first_head : forall name c0 avals,
  exists name' avals', rename_first ((name, c0) :: avals) = (name', c0) :: avals'.
Proof.
  intros name c0 avals. cbn [rename_first].
  destruct (negb (name =? "Regional")); [|eauto].
  cbn [map fst snd]. rewrite String.eqb_refl. eauto.
Qed.

Lemma unique_labels_inv : forall (name : string) (c0 : Column) avals,
  unique (map fst ((name, c0) :: avals)) = true ->
  existsb (String.eqb name) (map fst avals) = false
  /\ unique (map fst avals) = true.
Proof.
  intros name c0 avals H. cbn [map fst unique] in H.
  apply andb_true_iff in H as [H1 H2]. apply negb_true_iff in H1. auto.
Qed.

Lemma well_formed_inv : forall name c0 avals,
  well_formed ((name, c0) :: avals) = true ->
  0 < height c0
  /\ Forall (fun nc => height (snd nc) = height c0) avals
  /\ unique (map fst avals) = true.
Proof.
  intros name c0 avals H. cbn [well_formed] in H.
  repeat (apply andb_true_iff in H as [H ?]).
  split; [apply Nat.ltb_lt; assumption|].
  split; [|apply (unique_labels_inv name c0 avals); assumption].
  apply Forall_forall. intros nc Hnc.
  match goal with
  | F : forallb _ _ = true |- _ => rewrite forallb_forall in F; specialize (F nc Hnc)
  end.
  apply Nat.eqb_eq. assumption.
Qed.

Lemma well_formed_reserved : forall name c0 avals,
  well_formed ((name, c0) :: avals) = true ->
  existsb (String.eqb "Nota") (map fst avals)
  || existsb (String.eqb "Regional") (map fst avals) = false.
Proof.
  intros name c0 avals H. cbn [well_formed] in H.
  apply andb_true_iff in H as [H HN]. apply andb_true_iff in H as [_ HR].
  apply negb_true_iff in HN, HR. rewrite HN, HR. reflexivity.
Qed.

Lemma well_formed_labels : forall df,
  well_formed df = true -> unique (map fst df) = true.
Proof.
  intros [|[name c0] avals] H; [discriminate|]. cbn [well_formed] in H.
  repeat (apply andb_true_iff in H as [H ?]). assumption.
Qed.

(** What [preparar_df] returns on a well-formed sheet. *)
Lemma preparar_df_ok : forall df,
  well_formed df = true ->
  exists normalized : list (string * list float),
    preparar_df df
    = Ok (mk_table (category_labels df) (long_rows (scored_cells df) normalized))
    /\ map fst normalized = category_labels df
    /\ Forall (fun nv => List.length (snd nv) = List.length (scored_cells df)) normalized.
Proof.
  intros [|[name c0] avals] Hwf; [discriminate|].
  destruct (well_formed_inv _ _ _ Hwf) as (Hpos & Hrect & Huniq).
  pose proof (well_formed_reserved _ _ _ Hwf) as Hres.
  destruct (rename_first_fresh name c0 avals) as [name' Hren].
  { apply (unique_labels_inv name c0 avals), (well_formed_labels _ Hwf). }
  unfold preparar_df. rewrite Hren.
  unfold scored_cells, has_presence_row, category_labels. cbn [group_cells tl].
  unfold height in Hpos.
  destruct (cells c0) as [|c l] eqn:Ecells; [simpl in Hpos; lia|].
  cbn [last_cell bind].
  destruct (is_presence_label (last l c)) eqn:Emark.
  - set (avals' := map (fun nc => (fst nc, drop_last (snd nc))) avals).
    destruct (normalize_columns_ok avals') as (vs & Hvs & Hnames & Hlens).
    assert (Hfst : map fst avals' = map fst avals).
    { unfold avals'. rewrite map_map. reflexivity. }
    exists vs. rewrite Hvs. cbn [bind]. unfold melt, Categorical.
    rewrite Hnames, Hfst, Hres. cbn [bind].
    rewrite Huniq, cells_drop_last, Ecells.
    split; [reflexivity|]. split; [congruence|].
    apply Hlens. unfold avals'. apply Forall_map.
    eapply Forall_impl; [|exact Hrect].
    intros nc Hnc. cbn [snd]. rewrite height_drop_last, Hnc.
    unfold height. rewrite Ecells. symmetry. apply length_removelast_pred.
  - destruct (normalize_columns_ok avals) as (vs & Hvs & Hnames & Hlens).
    exists vs. rewrite Hvs. cbn [bind]. unfold melt, Categorical.
    rewrite Hnames, Hres. cbn [bind].
    rewrite Huniq, Ecells.
    split; [reflexivity|]. split; [reflexivity|].
    apply Hlens. eapply Forall_impl; [|exact Hrect].
    intros nc Hnc. rewrite Hnc. unfold height. rewrite Ecells. reflexivity.
Qed.

Lemma long_rows_Regional : forall reg normalized,
  Forall (fun nv => List.length (snd nv) = List.length reg) normalized ->
  map Regional (long_rows reg normalized) = flat_map (fun _ => reg) (map fst normalized).
Proof.
  intros reg normalized H. unfold long_rows. rewrite map_of_flat_map, flat_map_map.
  apply (flat_map_ext_Forall _ _ _ _ _ _ H).
  intros nv Hnv. apply block_Regional. exact Hnv.
Qed.

Lemma long_rows_Avaliacao : forall reg normalized,
  Forall (fun nv => List.length (snd nv) = List.length reg) normalized ->
  map Avaliacao (long_rows reg normalized)
  = flat_map (fun c => repeat c (List.length reg)) (map fst normalized).
Proof.
  intros reg normalized H. unfold long_rows. rewrite map_of_flat_map, flat_map_map.
  apply (flat_map_ext_Forall _ _ _ _ _ _ H).
  intros nv Hnv. apply block_Avaliacao. exact Hnv.
Qed.

Lemma long_rows_selected : forall g reg normalized,
  Forall (fun nv => List.length (snd nv) = List.length reg) normalized ->
  map Avaliacao (filter (fun r => cell_eq (Regional r) g) (long_rows reg normalized))
  = flat_map (fun c => repeat c (List.length (filter (fun c => cell_eq c g) reg)))
             (map fst normalized).
Proof.
  intros g reg normalized H.
  unfold long_rows. rewrite filter_of_flat_map, map_of_flat_map, flat_map_map.
  apply (flat_map_ext_Forall _ _ _ _ _ _ H).
  intros nv Hnv. apply block_selected. exact Hnv.
Qed.

(* ================================================================== *)
(** * C7 *)

Lemma lower_char_letter : forall (x lo up : ascii),
  In (lo, up) marker_letters ->
  lower_char x = lo <-> x = lo \/ x = up.
Proof.
  intros x lo up Hin.
  cbn [marker_letters In] in Hin.
  repeat (destruct Hin as [Hin|Hin]; [injection Hin as <- <-|]); try contradiction;
    (split; [|intros [-> | ->]; reflexivity]);
    destruct x as [[] [] [] [] [] [] [] []]; vm_compute; intro H;
    solve [discriminate H | auto].
Qed.

Lemma spells_marker_lower : forall w : string,
  spells_marker w <-> lower w = "presen".
Proof.
  intro w. unfold spells_marker, marker_letters. split.
  - intro H.
    repeat match goal with
    | H : Forall2 _ _ (_ :: _) |- _ => inversion H; clear H; subst
    | H : Forall2 _ _ [] |- _ => inversion H; clear H; subst
    end.
    repeat match goal with
    | H : list_ascii_of_string ?w = _ |- _ =>
        destruct w; cbn [list_ascii_of_string] in H; [discriminate H|]; injection H as ? H
    | H : [] = list_ascii_of_string ?w |- _ =>
        destruct w; cbn [list_ascii_of_string] in H; [|discriminate H]
    | H : _ :: _ = list_ascii_of_string ?w |- _ =>
        destruct w; cbn [list_ascii_of_string] in H; [discriminate H|]; injection H as ? H
    end.
    subst. cbn [lower].
    repeat match goal with
    | H : ?x = fst _ \/ ?x = snd _ |- _ =>
        apply (lower_char_letter x) in H; [cbn [fst] in H; rewrite H; clear H|cbn; tauto]
    end.
    reflexivity.
  - intro H.
    do 6 (destruct w as [|? w]; [discriminate H|]). destruct w; [|discriminate H].
    cbn [lower] in H. cbn [list_ascii_of_string].
    repeat (injection H as ? H).
    repeat (apply Forall2_cons;
            [match goal with
             | |- ?x = fst (?lo, ?up) \/ _ =>
                 apply (lower_char_letter x lo up); [cbn; tauto|assumption]
             end|]).
    apply Forall2_nil.
Qed.

Lemma attendance_label_spec : forall c : Cell,
  attendance_label c <-> is_presence_label c = true.
Proof.
  intros [| |s].
  - split; [intros (s1 & w & s2 & E & _); discriminate E|discriminate].
  - split; [intros (s1 & w & s2 & E & _); discriminate E|discriminate].
  - rewrite is_presence_label_spec. unfold attendance_label. split.
    + intros (s1 & w & s2 & E & Hw). injection E as ->.
      exists s1, w, s2. split; [reflexivity|apply spells_marker_lower; exact Hw].
    + intros (s1 & w & s2 & -> & Hw).
      exists s1, w, s2. split; [reflexivity|apply spells_marker_lower; exact Hw].
Qed.

Lemma last_snoc : forall (A : Type) (kept : list A) (c c0 : A) (l : list A),
  (kept ++ [c])%list = c0 :: l -> last l c0 = c.
Proof.
  intros A. induction kept as [|a kept IH]; intros c c0 l H.
  - injection H as <- <-. reflexivity.
  - injection H as <- <-.
    destruct kept as [|b kept]; [reflexivity|].
    cbn [app]. change (last (b :: (kept ++ [c])%list) a) with (last ((b :: kept) ++ [c])%list a).
    apply last_last.
Qed.

Lemma has_presence_row_last : forall df kept c,
  group_cells df = (kept ++ [c])%list -> has_presence_row df = is_presence_label c.
Proof.
  intros df kept c H. unfold has_presence_row.
  destruct (group_cells df) as [|c0 l] eqn:E.
  - destruct kept; discriminate H.
  - rewrite (last_snoc _ kept c c0 l); [reflexivity|congruence].
Qed.

(** C7.  On a well-formed sheet [preparar_df] returns a long table.  When
    the first-column cell of the last row is a text that contains the
    attendance marker, the letters p, r, e, s, e, n in a row, each in lower
    or upper case, that row is left out: the table has
    (rows - 1) * (category columns) rows, the rows before the last one
    against each category column.  Otherwise every row is kept, the last
    one too, and the table has rows * (category columns) rows. *)
Theorem preparar_df_drops_presence_row :
  forall (df : DataFrame) (kept : list Cell) (c : Cell),
  well_formed df = true ->
  group_cells df = (kept ++ [c])%list ->
  exists df_long : LongTable,
    preparar_df df = Ok df_long
    /\ (attendance_label c ->
        List.length (rows df_long)
        = (row_count df - 1) * List.length (category_labels df)
        /\ map Regional (rows df_long)
           = flat_map (fun _ => kept) (category_labels df))
    /\ (~ attendance_label c ->
        List.length (rows df_long)
        = row_count df * List.length (category_labels df)
        /\ map Regional (rows df_long)
           = flat_map (fun _ => (kept ++ [c])%list) (category_labels df)).
Proof.
  intros df kept c Hwf Hcells.
  destruct (preparar_df_ok df Hwf) as (normalized & Hok & Hnames & Hlens).
  eexists. split; [exact Hok|]. cbn [rows].
  assert (HR : map Regional (long_rows (scored_cells df) normalized)
               = flat_map (fun _ => scored_cells df) (category_labels df)).
  { rewrite <- Hnames. apply long_rows_Regional. exact Hlens. }
  assert (HL : List.length (long_rows (scored_cells df) normalized)
               = List.length (scored_cells df) * List.length (category_labels df)).
  { rewrite <- (length_map Regional), HR.
    apply length_flat_map_const. reflexivity. }
  rewrite HR, HL. clear HR HL.
  unfold scored_cells, row_count.
  rewrite (has_presence_row_last df kept c Hcells), Hcells.
  split; intro Hc.
  - apply attendance_label_spec in Hc. rewrite Hc.
    rewrite removelast_last, length_app. cbn [List.length].
    split; [f_equal; lia|reflexivity].
  - destruct (is_presence_label c) eqn:E.
    + exfalso. apply Hc. apply attendance_label_spec. exact E.
    + split; reflexivity.
Qed.

Lemma preparar_df_drops_presence_row_witness :
  exists df_long : LongTable,
    preparar_df sheet_example = Ok df_long
    /\ List.length (rows df_long) = 6
    /\ map Regional (rows df_long)
       = [CellStr "Norte"; CellStr "Sul"; CellStr "Norte"; CellStr "Sul";
          CellStr "Norte"; CellStr "Sul"].
Proof.
  destruct (preparar_df_drops_presence_row sheet_example
              [CellStr "Norte"; CellStr "Sul"] (CellStr "Presença") eq_refl eq_refl)
    as (df_long & Hok & Hdrop & _).
  exists df_long. split; [exact Hok|]. apply Hdrop.
  exists "", "Presen", "ça". split; [reflexivity|].
  unfold spells_marker. cbn [list_ascii_of_string marker_letters].
  repeat (apply Forall2_cons; [cbn [fst snd]; tauto|]). apply Forall2_nil.
Defined.

(** A sheet without the marker keeps its last row. *)
Example unmarked_last_row_is_kept :
  exists df_long : LongTable,
    preparar_df [("Unidade", ObjCol [CellStr "Norte"; CellStr "Sul"]);
                 ("R1", NumCol [3; 4]%float)]
    = Ok df_long
    /\ map Regional (rows df_long) = [CellStr "Norte"; CellStr "Sul"].
Proof.
  eexists. split; reflexivity.
Qed.

(* ================================================================== *)
(** * [sort_values]: facts *)

Lemma ascending_from_weaken : forall l lo lo',
  lo' <= lo -> ascending_from lo l -> ascending_from lo' l.
Proof.
  intros [|[x|] l] lo lo' Hle H; simpl in *; try tauto.
  destruct H as [H1 H2]. split; [lia|exact H2].
Qed.

Lemma ascending_from_app_repeat : forall m x l lo,
  lo <= x -> ascending_from x l -> ascending_from lo (repeat (Some x) m ++ l).
Proof.
  induction m as [|m IH]; intros x l lo Hlo Hl.
  - simpl. eapply ascending_from_weaken; eassumption.
  - simpl. split; [exact Hlo|]. apply IH; [lia|exact Hl].
Qed.

Lemma ascending_blocks : forall m n a,
  ascending_from a (flat_map (fun c => repeat c m) (map Some (seq a n))).
Proof.
  intros m n. induction n as [|n IH]; intro a.
  - exact I.
  - cbn [seq map flat_map]. apply ascending_from_app_repeat; [lia|].
    eapply ascending_from_weaken; [|apply IH]. lia.
Qed.

(** Rows already in category order are left as they are. *)
Lemma sort_values_ascending : forall cats l lo,
  ascending_from lo (map (fun r => category_code cats (Avaliacao r)) l) ->
  sort_values cats l = l.
Proof.
  intros cats. induction l as [|r l IH]; intros lo H; [reflexivity|].
  cbn [map ascending_from] in H.
  destruct (category_code cats (Avaliacao r)) as [x|] eqn:Ex; [|contradiction].
  destruct H as [_ H].
  cbn [sort_values]. rewrite (IH x H).
  destruct l as [|r' l]; [reflexivity|].
  cbn [insert_row]. rewrite Ex.
  cbn [map ascending_from] in H.
  destruct (category_code cats (Avaliacao r')) as [y|]; [|contradiction].
  destruct H as [Hxy _]. cbn [code_le].
  replace (x <=? y)%nat with true by (symmetry; apply Nat.leb_le; exact Hxy).
  reflexivity.
Qed.

Lemma unique_head : forall a l c,
  unique (a :: l) = true -> In c l -> (a =? c)%string = false.
Proof.
  intros a l c H Hc. cbn [unique] in H. apply andb_true_iff in H as [H _].
  apply negb_true_iff in H.
  destruct (a =? c)%string eqn:E; [|reflexivity].
  assert (Hex : existsb (String.eqb a) l = true)
    by (apply existsb_exists; exists c; auto).
  congruence.
Qed.

(** The code of a category is its position. *)
Lemma category_codes : forall cats,
  unique cats = true ->
  map (category_code cats) cats = map Some (seq 0 (List.length cats)).
Proof.
  induction cats as [|a cats IH]; intro H; [reflexivity|].
  cbn [map category_code List.length seq]. rewrite String.eqb_refl. f_equal.
  rewrite <- seq_shift, map_map.
  assert (Hu : unique cats = true)
    by (cbn [unique] in H; apply andb_true_iff in H as [_ H]; exact H).
  rewrite <- (map_map Some (option_map S)), <- (IH Hu), map_map.
  apply map_ext_in. intros c Hc. rewrite (unique_head a cats c H Hc). reflexivity.
Qed.

Lemma map_flat_map_repeat : forall (A B : Type) (f : A -> B) m (l : list A),
  map f (flat_map (fun c => repeat c m) l) = flat_map (fun c => repeat c m) (map f l).
Proof.
  intros A B f m. induction l as [|a l IH]; [reflexivity|].
  simpl. rewrite map_app, IH. f_equal. apply map_repeat.
Qed.

(* ================================================================== *)
(** * C8 *)

(** C8.  On a well-formed sheet, the ordered categories of the long table
    are the labels of the sheet's columns in their original order, the long
    table lists the rounds in that order, and so do the sorted rows
    [montar_base] selects for any regional: labels are never sorted as
    text. *)
Theorem category_order_is_column_order : forall df : DataFrame,
  well_formed df = true ->
  exists df_long : LongTable,
    preparar_df df = Ok df_long
    /\ categories df_long = category_labels df
    /\ map Avaliacao (rows df_long)
       = flat_map (fun c => repeat c (List.length (scored_cells df))) (category_labels df)
    /\ forall regional : Cell,
         map Avaliacao (base_rows (montar_base df_long regional))
         = flat_map
             (fun c => repeat c (List.length (filter (fun g => cell_eq g regional)
                                                     (scored_cells df))))
             (category_labels df).
Proof.
  intros df Hwf.
  destruct (preparar_df_ok df Hwf) as (normalized & Hok & Hnames & Hlens).
  eexists. split; [exact Hok|]. cbn [rows categories].
  split; [reflexivity|]. split.
  - rewrite <- Hnames. apply long_rows_Avaliacao. exact Hlens.
  - intro regional. unfold montar_base. cbn [rows categories base_rows derive].
    set (selected := filter _ _).
    assert (Hsel : map Avaliacao selected
                   = flat_map
                       (fun c => repeat c (List.length (filter (fun g => cell_eq g regional)
                                                               (scored_cells df))))
                       (category_labels df)).
    { unfold selected. rewrite <- Hnames. apply long_rows_selected. exact Hlens. }
    rewrite (sort_values_ascending _ _ 0); [exact Hsel|].
    rewrite <- (map_map Avaliacao (category_code (category_labels df))), Hsel.
    rewrite map_flat_map_repeat, category_codes.
    + apply ascending_blocks.
    + destruct df as [|[name c0] avals]; [discriminate|].
      apply (well_formed_inv _ _ _ Hwf).
Qed.

(** Outside the well-formed sheets: with no column or no row there is no
    last label to look at, and line 60 or line 64 raises. *)
Example preparar_df_empty_sheet :
  preparar_df [] = Raise IndexError
  /\ preparar_df [("Regional", ObjCol []); ("R1", NumCol [])] = Raise IndexError.
Proof.
  split; reflexivity.
Qed.

Lemma category_order_is_column_order_witness :
  exists df_long : LongTable,
    preparar_df sheet_example = Ok df_long
    /\ categories df_long = category_labels sheet_example
    /\ map Avaliacao (rows df_long)
       = flat_map (fun c => repeat c (List.length (scored_cells sheet_example)))
                  (category_labels sheet_example)
    /\ forall regional : Cell,
         map Avaliacao (base_rows (montar_base df_long regional))
         = flat_map
             (fun c => repeat c (List.length (filter (fun g => cell_eq g regional)
                                                     (scored_cells sheet_example))))
             (category_labels sheet_example).
Proof.
  exact (category_order_is_column_order sheet_example eq_refl).
Defined.

Example sheet_example_reshaped :
  has_presence_row sheet_example = true
  /\ row_count sheet_example = 3
  /\ category_labels sheet_example = ["R10"; "R2"; "R1"]
  /\ exists df_long,
       preparar_df sheet_example = Ok df_long
       /\ List.length (rows df_long) = 6
       /\ categories df_long = ["R10"; "R2"; "R1"]
       /\ map Avaliacao (rows df_long) = ["R10"; "R10"; "R2"; "R2"; "R1"; "R1"]
       /\ map Avaliacao (base_rows (montar_base df_long (CellStr "Sul")))
          = ["R10"; "R2"; "R1"]
       /\ map Nota (base_rows (montar_base df_long (CellStr "Sul"))) = [2; 4; 7]%float.
Proof.
  repeat split. eexists. split; [reflexivity|]. vm_compute. repeat split.
Qed.

Local Open Scope float_scope.

(* ================================================================== *)
(** * Missing values in binary64 *)

Lemma SFcompare_refl : forall x : spec_float,
  x <> S754_nan -> SFcompare x x = Some Eq.
Proof.
  intros [s|s| |s m e] H; try reflexivity.
  - destruct s; reflexivity.
  - congruence.
  - simpl. rewrite Z.compare_refl.
    assert (Hm : Pos.compare_cont Eq m m = Eq) by apply Pos.compare_refl.
    unfold Pos.compare in Hm.
    destruct s; rewrite ?Hm; reflexivity.
Qed.

(** There is one missing marker. *)
Lemma is_nan_eq : forall x : float, is_nan x = true -> x = nan.
Proof.
  intros x H. apply Prim2SF_inj. change (Prim2SF nan) with S754_nan.
  unfold is_nan in H. rewrite eqb_spec in H. unfold SFeqb in H.
  destruct (Prim2SF x) as [s|s| |s m e] eqn:E; try reflexivity;
    rewrite SFcompare_refl in H by discriminate; discriminate.
Qed.

Lemma eqb_nan_r : forall x y : float, is_nan y = true -> (x =? y) = false.
Proof.
  intros x y H. rewrite (is_nan_eq y H), eqb_spec.
  change (Prim2SF nan) with S754_nan. unfold SFeqb.
  destruct (Prim2SF x); reflexivity.
Qed.

Lemma sub_nan_l : forall y : float, nan - y = nan.
Proof.
  intro y. apply Prim2SF_inj. rewrite sub_spec. reflexivity.
Qed.

Lemma sub_nan_r : forall x : float, x - nan = nan.
Proof.
  intro x. apply Prim2SF_inj. rewrite sub_spec.
  change (Prim2SF nan) with S754_nan. destruct (Prim2SF x); reflexivity.
Qed.

Lemma div_nan_l : forall y : float, nan / y = nan.
Proof.
  intro y. apply Prim2SF_inj. rewrite div_spec. reflexivity.
Qed.

Lemma div_nan_r : forall x : float, x / nan = nan.
Proof.
  intro x. apply Prim2SF_inj. rewrite div_spec.
  change (Prim2SF nan) with S754_nan. destruct (Prim2SF x); reflexivity.
Qed.

Lemma mul_nan_l : forall y : float, nan * y = nan.
Proof.
  intro y. apply Prim2SF_inj. rewrite mul_spec. reflexivity.
Qed.

Lemma parse_number_unchanged : forall f : float,
  parse_br_number (CellNum f) = Ok f.
Proof.
  intro f. cbn [parse_br_number].
  destruct (is_nan f) eqn:E; [|reflexivity].
  rewrite (is_nan_eq f E). reflexivity.
Qed.

(** X1.  Parsing is idempotent: the number [parse_br_number] gives for a
    cell, missing marker included, is what it gives again for that
    number. *)
Theorem parse_br_number_idempotent : forall x : Cell,
  (v <- parse_br_number x ;; parse_br_number (CellNum v)) = parse_br_number x.
Proof.
  intro x. destruct (parse_br_number x) as [v|e]; cbn [bind].
  - apply parse_number_unchanged.
  - reflexivity.
Qed.

(* ================================================================== *)
(** * [montar_base]: the frame as a whole *)

Lemma length_zip_with : forall (A B C : Type) (f : A -> B -> C) l m,
  List.length l = List.length m -> List.length (zip_with f l m) = List.length l.
Proof.
  intros A B C f. induction l as [|a l IH]; intros [|b m] H; try discriminate.
  - reflexivity.
  - simpl. f_equal. apply IH. simpl in H. lia.
Qed.

Lemma length_zip_with3 : forall (A B C D : Type) (f : A -> B -> C -> D) l m n,
  List.length l = List.length m -> List.length l = List.length n ->
  List.length (zip_with3 f l m n) = List.length l.
Proof.
  intros A B C D f. induction l as [|a l IH]; intros [|b m] [|c n] Hm Hn;
    try discriminate.
  - reflexivity.
  - simpl. f_equal. apply IH; simpl in *; lia.
Qed.

Lemma length_np_where : forall (A : Type) cond (l m : list A),
  List.length cond = List.length l -> List.length cond = List.length m ->
  List.length (np_where cond l m) = List.length cond.
Proof.
  intros A. induction cond as [|c cond IH]; intros [|a l] [|b m] Hl Hm;
    try discriminate.
  - reflexivity.
  - simpl. f_equal. apply IH; simpl in *; lia.
Qed.

Lemma length_shift : forall l : list float, List.length (shift l) = List.length l.
Proof.
  intros [|x l]; [reflexivity|].
  unfold shift. cbn [List.length]. rewrite length_removelast_pred. simpl. lia.
Qed.

Lemma insert_row_perm : forall cats r l, Permutation (insert_row cats r l) (r :: l).
Proof.
  intros cats r. induction l as [|r' l IH]; [reflexivity|].
  cbn [insert_row]. destruct (code_le _ _); [reflexivity|].
  rewrite IH. apply perm_swap.
Qed.

Lemma sort_values_perm : forall cats l, Permutation (sort_values cats l) l.
Proof.
  intro cats. induction l as [|r l IH]; [reflexivity|].
  cbn [sort_values]. rewrite insert_row_perm, IH. reflexivity.
Qed.

Lemma montar_base_call_selected : forall (df_long : LongTable) (regional : Cell) (r : LongRow),
  In r (rows df_long) -> cell_eq (Regional r) regional = true ->
  montar_base_call df_long regional = Ok (montar_base df_long regional)
  /\ In r (base_rows (montar_base df_long regional)).
Proof.
  intros df_long regional r Hin Hr.
  assert (Hsel : In r (filter (fun r => cell_eq (Regional r) regional) (rows df_long))).
  { apply filter_In. split; assumption. }
  split.
  - unfold montar_base_call.
    destruct (filter _ (rows df_long)); [destruct Hsel|reflexivity].
  - unfold montar_base, derive. cbn [base_rows].
    eapply Permutation_in; [apply Permutation_sym, sort_values_perm|exact Hsel].
Qed.

Lemma derive_columns_length : forall sorted : list LongRow,
  let base := derive sorted in
  let n := List.length sorted in
  List.length (Nota_anterior base) = n
  /\ List.length (Delta base) = n
  /\ List.length (Delta_pct base) = n
  /\ List.length (label_text base) = n
  /\ List.length (hover_text base) = n.
Proof.
  intros sorted base n. unfold n, base, derive.
  cbn [base_rows Nota_anterior Delta Delta_pct label_text hover_text].
  set (nota := map Nota sorted).
  set (anterior := shift nota).
  set (delta := zip_with PrimFloat.sub nota anterior).
  set (pct := zip_with (fun d a => d / a * 100) delta anterior).
  assert (Hn : List.length nota = List.length sorted) by apply length_map.
  assert (Ha : List.length anterior = List.length sorted)
    by (unfold anterior; rewrite length_shift; exact Hn).
  assert (Hd : List.length delta = List.length sorted)
    by (unfold delta; rewrite length_zip_with; [exact Hn|rewrite Hn, Ha; reflexivity]).
  assert (Hp : List.length pct = List.length sorted)
    by (unfold pct; rewrite length_zip_with; [exact Hd|rewrite Hd, Ha; reflexivity]).
  split; [exact Ha|]. split; [exact Hd|]. split; [exact Hp|]. split.
  - rewrite length_np_where; rewrite ?length_map; [exact Ha| |].
    + rewrite Ha, Hn. reflexivity.
    + rewrite length_zip_with3; [rewrite Ha, Hn; reflexivity| |];
        rewrite Hn; [rewrite Hd|rewrite Hp]; reflexivity.
  - unfold str_add.
    rewrite !length_zip_with; rewrite ?length_map; try reflexivity;
      rewrite ?length_zip_with; rewrite ?length_map;
      rewrite ?length_zip_with; rewrite ?length_map;
      fold nota; rewrite ?Hn, ?Hd, ?Hp; reflexivity.
Qed.

(** X2.  When a row of the table is of the regional, the call returns a
    frame, and the frame is rectangular: it has at least one row, and each
    column that lines 86-106 add has one entry per selected row. *)
Theorem montar_base_columns_length :
  forall (df_long : LongTable) (regional : Cell) (r : LongRow),
  In r (rows df_long) -> cell_eq (Regional r) regional = true ->
  exists base : Base,
    montar_base_call df_long regional = Ok base
    /\ 0 < List.length (base_rows base)
    /\ List.length (Nota_anterior base) = List.length (base_rows base)
    /\ List.length (Delta base) = List.length (base_rows base)
    /\ List.length (Delta_pct base) = List.length (base_rows base)
    /\ List.length (label_text base) = List.length (base_rows base)
    /\ List.length (hover_text base) = List.length (base_rows base).
Proof.
  intros df_long regional r Hin Hr.
  destruct (montar_base_call_selected df_long regional r Hin Hr) as [Hcall Hrow].
  exists (montar_base df_long regional). split; [exact Hcall|]. split.
  - destruct (base_rows (montar_base df_long regional)); [destruct Hrow|simpl; lia].
  - unfold montar_base in *. apply derive_columns_length.
Qed.

Lemma montar_base_columns_length_witness :
  exists base : Base,
    montar_base_call two_groups (CellStr "G") = Ok base
    /\ 0 < List.length (base_rows base)
    /\ List.length (Nota_anterior base) = List.length (base_rows base)
    /\ List.length (Delta base) = List.length (base_rows base)
    /\ List.length (Delta_pct base) = List.length (base_rows base)
    /\ List.length (label_text base) = List.length (base_rows base)
    /\ List.length (hover_text base) = List.length (base_rows base).
Proof.
  apply (montar_base_columns_length two_groups (CellStr "G") (mk_long (CellStr "G") "c1" 10)).
  - left. reflexivity.
  - reflexivity.
Defined.

Lemma filter_none : forall (A : Type) (p : A -> bool) (l : list A),
  (forall a, In a l -> p a = false) -> filter p l = [].
Proof.
  intros A p. induction l as [|a l IH]; intro H; [reflexivity|].
  simpl. rewrite (H a) by (left; reflexivity). apply IH.
  intros b Hb. apply H. right. exact Hb.
Qed.

Lemma cell_eq_missing : forall a b : Cell, is_missing b = true -> cell_eq a b = false.
Proof.
  intros a [|f|s] H; try discriminate.
  - destruct a; reflexivity.
  - destruct a as [|x|t]; try reflexivity. cbn [cell_eq]. apply eqb_nan_r. exact H.
Qed.

(** X3.  A regional that is missing ([None] or the missing marker, what the
    selector gives when it has no option) is equal to no cell: line 83
    selects no row, and on a table that has rows the call raises a
    [TypeError] at line 96, where text is added to an empty column of
    numbers. *)
Theorem montar_base_missing_regional : forall (df_long : LongTable) (regional : Cell),
  is_missing regional = true ->
  rows df_long <> [] ->
  filter (fun r => cell_eq (Regional r) regional) (rows df_long) = []
  /\ montar_base_call df_long regional = Raise TypeError.
Proof.
  intros df_long regional H _.
  assert (Hsel : filter (fun r => cell_eq (Regional r) regional) (rows df_long) = []).
  { apply filter_none. intros r _. apply cell_eq_missing. exact H. }
  split; [exact Hsel|]. unfold montar_base_call. rewrite Hsel. reflexivity.
Qed.

Lemma montar_base_missing_regional_witness :
  filter (fun r => cell_eq (Regional r) CellNone) (rows two_groups) = []
  /\ montar_base_call two_groups CellNone = Raise TypeError.
Proof.
  apply (montar_base_missing_regional two_groups CellNone eq_refl). discriminate.
Defined.

(** Row [i] of the tooltip column. *)
Lemma derive_hover_row : forall sorted i r delta pct,
  nth_error sorted i = Some r ->
  nth_error (Delta (derive sorted)) i = Some delta ->
  nth_error (Delta_pct (derive sorted)) i = Some pct ->
  nth_error (hover_text (derive sorted)) i
  = Some ((((("<b>" ++ Avaliacao r ++ "</b>")
             ++ ("<br>Nota: " ++ fnum (Nota r)))
            ++ ("<br>Variação Absoluta: " ++ fsgn delta))
           ++ ("<br>Variação Percentual: " ++ fsgn pct ++ "%")))%string.
Proof.
  intros sorted i r delta pct Hr Hd Hp.
  unfold derive in *. cbn [Delta Delta_pct hover_text] in *. unfold str_add.
  repeat apply nth_error_zip_with.
  - rewrite !nth_error_map, Hr. reflexivity.
  - rewrite !nth_error_map, Hr. reflexivity.
  - rewrite nth_error_map, Hd. reflexivity.
  - rewrite nth_error_map, Hp. reflexivity.
Qed.

(** X4.  The tooltip of a row is its round in bold, then its value, its
    absolute change and its percentage change on lines of their own, each
    number written as in the label and a missing one as the em dash. *)
Theorem hover_text_of_row :
  forall (df_long : LongTable) (regional : Cell) (i : nat) (r : LongRow),
  let base := montar_base df_long regional in
  nth_error (base_rows base) i = Some r ->
  exists delta pct : float,
    nth_error (Delta base) i = Some delta
    /\ nth_error (Delta_pct base) i = Some pct
    /\ nth_error (hover_text base) i
       = Some ("<b>" ++ Avaliacao r ++ "</b>"
               ++ "<br>Nota: " ++ fnum (Nota r)
               ++ "<br>Variação Absoluta: " ++ fsgn delta
               ++ "<br>Variação Percentual: " ++ fsgn pct ++ "%")%string.
Proof.
  intros df_long regional i r base Hr.
  unfold base, montar_base in *.
  set (sorted := sort_values _ _) in *.
  change (base_rows (derive sorted)) with sorted in Hr.
  destruct (derive_row sorted i r Hr) as (_ & Hd & Hp & _).
  eexists _, _. split; [exact Hd|]. split; [exact Hp|].
  rewrite (derive_hover_row sorted i r _ _ Hr Hd Hp).
  f_equal. rewrite !append_assoc. reflexivity.
Qed.

Lemma hover_text_of_row_witness :
  let base := montar_base two_groups (CellStr "G") in
  exists delta pct : float,
    nth_error (Delta base) 1 = Some delta
    /\ nth_error (Delta_pct base) 1 = Some pct
    /\ nth_error (hover_text base) 1
       = Some ("<b>" ++ "c2" ++ "</b>"
               ++ "<br>Nota: " ++ fnum 12
               ++ "<br>Variação Absoluta: " ++ fsgn delta
               ++ "<br>Variação Percentual: " ++ fsgn pct ++ "%")%string.
Proof.
  exact (hover_text_of_row two_groups (CellStr "G") 1
           (mk_long (CellStr "G") "c2" 12) eq_refl).
Defined.

(** X5.  A missing operand propagates: at a row whose value or whose
    previous value is missing, [Delta] and [Delta_pct] are missing and
    nothing is raised; the label is the short one when the previous value is
    missing, and otherwise the long one with the em dash for each of its
    three numbers. *)
Theorem missing_operand_propagates :
  forall (df_long : LongTable) (regional : Cell) (i : nat) (r : LongRow) (prev : float),
  let base := montar_base df_long regional in
  nth_error (base_rows base) i = Some r ->
  nth_error (Nota_anterior base) i = Some prev ->
  is_nan (Nota r) || is_nan prev = true ->
  nth_error (Delta base) i = Some nan
  /\ nth_error (Delta_pct base) i = Some nan
  /\ nth_error (label_text base) i
     = Some (if is_nan prev then ("Nota " ++ fnum (Nota r))%string
             else "Nota — (Δ —; —%)"%string).
Proof.
  intros df_long regional i r prev base Hr Hprev Hnan.
  unfold base, montar_base in *.
  set (sorted := sort_values _ _) in *.
  change (base_rows (derive sorted)) with sorted in Hr.
  destruct (derive_row sorted i r Hr) as (Hp & Hd & Hq & Hl).
  rewrite Hp in Hprev. injection Hprev as Hprev. rewrite Hprev in Hd, Hq, Hl.
  assert (Hdelta : Nota r - prev = nan).
  { apply orb_true_iff in Hnan as [H|H]; rewrite (is_nan_eq _ H);
      [apply sub_nan_l|apply sub_nan_r]. }
  rewrite Hdelta in Hd, Hq, Hl. rewrite div_nan_l, mul_nan_l in Hq, Hl.
  split; [exact Hd|]. split; [exact Hq|]. rewrite Hl.
  destruct (is_nan prev) eqn:Ep; [reflexivity|].
  cbn [orb] in Hnan. rewrite orb_false_r in Hnan.
  rewrite (is_nan_eq _ Hnan). reflexivity.
Qed.

Lemma missing_operand_propagates_witness :
  let base := montar_base (one_group "G" "c1" "c2" "c3" 10 nan 9) (CellStr "G") in
  nth_error (Delta base) 1 = Some nan
  /\ nth_error (Delta_pct base) 1 = Some nan
  /\ nth_error (label_text base) 1
     = Some (if is_nan 10 then ("Nota " ++ fnum nan)%string
             else "Nota — (Δ —; —%)"%string).
Proof.
  exact (missing_operand_propagates
           (one_group "G" "c1" "c2" "c3" 10 nan 9) (CellStr "G") 1
           (mk_long (CellStr "G") "c2" nan) 10 eq_refl eq_refl eq_refl).
Defined.

(** A zero less a zero is a zero, and a zero over a zero is missing. *)
Lemma zero_over_zero : forall v z : float,
  (v =? 0) = true -> (z =? 0) = true ->
  ((v - z) =? 0) = true /\ (v - z) / z * 100 = nan.
Proof.
  intros v z Hv Hz.
  destruct (zero_class v Hv) as [sv Ev]. destruct (zero_class z Hz) as [sz Ez].
  assert (Hd : exists s, Prim2SF (v - z) = S754_zero s).
  { rewrite sub_spec, Ev, Ez. destruct sv, sz; eexists; reflexivity. }
  destruct Hd as [sd Ed]. split.
  - rewrite eqb_spec, Ed. reflexivity.
  - assert (Hq : (v - z) / z = nan).
    { apply Prim2SF_inj. rewrite div_spec, Ed, Ez. reflexivity. }
    rewrite Hq. apply mul_nan_l.
Qed.

(** X6.  Zero after zero: at a row whose value and previous value are both
    zero, [Delta] is a zero and [Delta_pct] is missing (zero over zero), so
    the label is the long one with the em dash as its percentage term. *)
Theorem montar_base_zero_after_zero :
  forall (df_long : LongTable) (regional : Cell) (i : nat) (r : LongRow) (prev : float),
  let base := montar_base df_long regional in
  nth_error (base_rows base) i = Some r ->
  nth_error (Nota_anterior base) i = Some prev ->
  (prev =? 0) = true ->
  (Nota r =? 0) = true ->
  exists delta : float,
    nth_error (Delta base) i = Some delta
    /\ (delta =? 0) = true
    /\ nth_error (Delta_pct base) i = Some nan
    /\ nth_error (label_text base) i
       = Some ("Nota " ++ fnum (Nota r) ++ " (Δ " ++ fsgn delta ++ "; —%)")%string.
Proof.
  intros df_long regional i r prev base Hr Hprev Hz Hv.
  unfold base, montar_base in *.
  set (sorted := sort_values _ _) in *.
  change (base_rows (derive sorted)) with sorted in Hr.
  destruct (derive_row sorted i r Hr) as (Hp & Hd & Hq & Hl).
  rewrite Hp in Hprev. injection Hprev as Hprev. rewrite Hprev in Hd, Hq, Hl.
  destruct (zero_over_zero _ _ Hv Hz) as [Hd0 Hnan].
  rewrite Hnan in Hq, Hl.
  exists (Nota r - prev). repeat split; try assumption.
  rewrite Hl.
  assert (Hnz : is_nan prev = false).
  { unfold is_nan. rewrite eqb_spec.
    destruct (zero_class prev Hz) as [s Es]. rewrite Es. reflexivity. }
  rewrite Hnz. reflexivity.
Qed.

Lemma montar_base_zero_after_zero_witness :
  let base := montar_base (one_group "G" "c1" "c2" "c3" 0 0 9) (CellStr "G") in
  exists delta : float,
    nth_error (Delta base) 1 = Some delta
    /\ (delta =? 0) = true
    /\ nth_error (Delta_pct base) 1 = Some nan
    /\ nth_error (label_text base) 1
       = Some ("Nota " ++ fnum 0 ++ " (Δ " ++ fsgn delta ++ "; —%)")%string.
Proof.
  exact (montar_base_zero_after_zero
           (one_group "G" "c1" "c2" "c3" 0 0 9) (CellStr "G") 1
           (mk_long (CellStr "G") "c2" 0) 0 eq_refl eq_refl eq_refl eq_refl).
Defined.

(* ================================================================== *)
(** * [sort_values] on any rows *)

Lemma code_le_total : forall a b, code_le a b = false -> code_le b a = true.
Proof.
  intros [x|] [y|]; simpl; intro H; try reflexivity; try discriminate.
  apply Nat.leb_le. apply Nat.leb_gt in H. lia.
Qed.

Lemma insert_row_sorted : forall cats r l,
  Sorted (in_order cats) l -> Sorted (in_order cats) (insert_row cats r l).
Proof.
  intros cats r. induction l as [|r' l IH]; intro H.
  - repeat constructor.
  - cbn [insert_row].
    destruct (code_le (category_code cats (Avaliacao r))
                      (category_code cats (Avaliacao r'))) eqn:E.
    + constructor; [exact H|]. constructor. exact E.
    + inversion H as [|? ? Hs Hh]; subst.
      constructor; [apply IH; exact Hs|].
      destruct l as [|r'' l]; cbn [insert_row].
      * constructor. apply code_le_total. exact E.
      * destruct (code_le (category_code cats (Avaliacao r))
                          (category_code cats (Avaliacao r''))); constructor.
        -- apply code_le_total. exact E.
        -- inversion Hh; assumption.
Qed.

Lemma sort_values_sorted : forall cats l, Sorted (in_order cats) (sort_values cats l).
Proof.
  intro cats. induction l as [|r l IH]; [constructor|].
  cbn [sort_values]. apply insert_row_sorted. exact IH.
Qed.

(** X7.  [montar_base] selects exactly the rows of the regional: the rows of
    its frame are the rows of the long table whose [Regional] equals it,
    each one once, and no other row. *)
Theorem montar_base_selects_regional : forall (df_long : LongTable) (regional : Cell),
  let base := montar_base df_long regional in
  Permutation (base_rows base)
              (filter (fun r => cell_eq (Regional r) regional) (rows df_long))
  /\ Forall (fun r => In r (rows df_long) /\ cell_eq (Regional r) regional = true)
            (base_rows base).
Proof.
  intros df_long regional base. unfold base, montar_base. cbn [base_rows derive].
  pose proof (sort_values_perm (categories df_long)
                (filter (fun r => cell_eq (Regional r) regional) (rows df_long))) as HP.
  split; [exact HP|].
  apply Forall_forall. intros r Hr.
  apply (Permutation_in _ HP) in Hr. apply filter_In in Hr. exact Hr.
Qed.

(** X8.  The rows of the frame are in category order whatever order the
    long table has them in: no row's round comes after the round of the
    next row, and rows whose label is no category come last. *)
Theorem montar_base_in_category_order : forall (df_long : LongTable) (regional : Cell),
  Sorted (in_order (categories df_long)) (base_rows (montar_base df_long regional))
  /\ (forall a b : LongRow,
        in_order (categories df_long) a b ->
        round_of (categories df_long) a = None ->
        round_of (categories df_long) b = None).
Proof.
  intros df_long regional. split.
  - unfold montar_base. cbn [base_rows derive]. apply sort_values_sorted.
  - unfold in_order. intros a b H Ha. rewrite Ha in H.
    destruct (round_of (categories df_long) b); [discriminate|reflexivity].
Qed.

(* ================================================================== *)
(** * Comparing cells *)

Lemma compare_cont_Eq : forall m n : positive,
  Pos.compare_cont Eq m n = Eq -> m = n.
Proof.
  intros m n H. apply Pos.compare_eq. exact H.
Qed.

Lemma SFcompare_Eq : forall x y : spec_float,
  SFcompare x y = Some Eq ->
  (exists s s', x = S754_zero s /\ y = S754_zero s') \/ x = y.
Proof.
  intros [sx|sx| |sx mx ex] [sy|sy| |sy my ey] H; simpl in H; try discriminate.
  - left. eauto.
  - destruct sy; discriminate.
  - destruct sy; discriminate.
  - destruct sx; discriminate.
  - right. destruct sx, sy; try discriminate; reflexivity.
  - destruct sx; discriminate.
  - destruct sx; discriminate.
  - destruct sy; discriminate.
  - right. destruct sx, sy; try discriminate;
      destruct (ex ?= ey)%Z eqn:Ee; try discriminate;
      apply Z.compare_eq in Ee; subst ey;
      injection H as H.
    + destruct (Pos.compare_cont Eq mx my) eqn:Em; try discriminate.
      apply compare_cont_Eq in Em. subst. reflexivity.
    + apply compare_cont_Eq in H. subst. reflexivity.
Qed.

Lemma SFeqb_sym : forall x y, SFeqb x y = true -> SFeqb y x = true.
Proof.
  intros x y H. unfold SFeqb in *.
  destruct (SFcompare x y) as [[| |]|] eqn:E; try discriminate.
  destruct (SFcompare_Eq x y E) as [(s & s' & -> & ->)|<-]; [reflexivity|].
  rewrite E. reflexivity.
Qed.

Lemma SFeqb_trans : forall x y z,
  SFeqb x y = true -> SFeqb y z = true -> SFeqb x z = true.
Proof.
  intros x y z Hxy Hyz. unfold SFeqb in *.
  destruct (SFcompare x y) as [[| |]|] eqn:E1; try discriminate.
  destruct (SFcompare y z) as [[| |]|] eqn:E2; try discriminate.
  destruct (SFcompare_Eq x y E1) as [(s & s' & -> & ->)|<-].
  - destruct (SFcompare_Eq _ z E2) as [(t & t' & _ & ->)|<-]; reflexivity.
  - rewrite E2. reflexivity.
Qed.

Lemma cell_eq_sym : forall a b, cell_eq a b = true -> cell_eq b a = true.
Proof.
  intros [|x|s] [|y|t] H; try discriminate; cbn [cell_eq] in *.
  - rewrite eqb_spec in *. apply SFeqb_sym. exact H.
  - rewrite String.eqb_sym. exact H.
Qed.

Lemma cell_eq_trans : forall a b c,
  cell_eq a b = true -> cell_eq b c = true -> cell_eq a c = true.
Proof.
  intros [|x|s] [|y|t] [|z|u] H1 H2; try discriminate; cbn [cell_eq] in *.
  - rewrite eqb_spec in *. eapply SFeqb_trans; eassumption.
  - apply String.eqb_eq in H1, H2. subst. apply String.eqb_refl.
Qed.

Lemma cell_eq_refl : forall a, is_missing a = false -> cell_eq a a = true.
Proof.
  intros [|x|s] H; try discriminate; cbn [cell_eq is_missing] in *.
  - unfold is_nan in H. apply negb_false_iff in H. exact H.
  - apply String.eqb_refl.
Qed.

(** Equal cells compare alike with any third one. *)
Lemma cell_eq_congr : forall a b c,
  cell_eq a b = true -> cell_eq c a = cell_eq c b.
Proof.
  intros a b c H.
  destruct (cell_eq c a) eqn:E1, (cell_eq c b) eqn:E2; try reflexivity.
  - rewrite (cell_eq_trans c a b E1 H) in E2. discriminate.
  - rewrite (cell_eq_trans c b a E2 (cell_eq_sym _ _ H)) in E1. discriminate.
Qed.

Lemma cell_eq_not_missing : forall a b, cell_eq a b = true -> is_missing a = false.
Proof.
  intros a b H. destruct (is_missing a) eqn:E; [|reflexivity].
  apply cell_eq_sym in H. rewrite (cell_eq_missing b a E) in H. discriminate.
Qed.

Lemma SFcompare_Lt_Gt : forall x y : spec_float,
  SFcompare x y = Some Lt -> SFcompare y x = Some Gt.
Proof.
  intros [sx|sx| |sx mx ex] [sy|sy| |sy my ey] H; simpl in *; try discriminate;
    try (destruct sx; discriminate || reflexivity);
    try (destruct sy; discriminate || reflexivity);
    try (destruct sx, sy; discriminate || reflexivity).
  assert (Hm : Pos.compare_cont Eq my mx = CompOpp (Pos.compare_cont Eq mx my))
    by (rewrite Pos.compare_cont_antisym; reflexivity).
  destruct sx, sy; try discriminate; try reflexivity;
    rewrite (Z.compare_antisym ex ey), Hm;
    destruct (ex ?= ey)%Z; simpl in *; try discriminate; try reflexivity;
    destruct (Pos.compare_cont Eq mx my); simpl in *; try discriminate; reflexivity.
Qed.

(** [<] is asymmetric where it is defined. *)
Lemma cell_lt_asym : forall a b,
  cell_lt a b = Some true -> cell_lt b a = Some false.
Proof.
  intros [|x|s] [|y|t] H; try discriminate; cbn [cell_lt] in *; f_equal.
  - injection H as H. rewrite ltb_spec in *. unfold SFltb in *.
    destruct (SFcompare (Prim2SF x) (Prim2SF y)) as [[| |]|] eqn:E; try discriminate.
    rewrite (SFcompare_Lt_Gt _ _ E). reflexivity.
  - injection H as H. unfold String.ltb in *.
    rewrite String.compare_antisym.
    destruct (s ?= t)%string; try discriminate. reflexivity.
Qed.

Local Open Scope nat_scope.

(* ================================================================== *)
(** * The region selector: facts *)

Lemma In_dropna : forall g l, In g (dropna l) <-> In g l /\ is_missing g = false.
Proof.
  intros g l. unfold dropna. rewrite filter_In, negb_true_iff. reflexivity.
Qed.

Lemma In_Series_unique : forall g l, In g (Series_unique l) -> In g l.
Proof.
  intros g. induction l as [|c l IH]; intro H; [exact H|].
  cbn [Series_unique] in H. destruct H as [H|H]; [left; exact H|].
  right. apply IH. apply filter_In in H. apply H.
Qed.

(** Every value of the column has its representative among the unique
    ones. *)
Lemma Series_unique_complete : forall l c,
  In c l -> is_missing c = false ->
  exists g, In g (Series_unique l) /\ cell_eq c g = true.
Proof.
  induction l as [|c0 l IH]; intros c Hc Hm; [contradiction|].
  cbn [Series_unique]. destruct Hc as [->|Hc].
  - exists c. split; [left; reflexivity|apply cell_eq_refl; exact Hm].
  - destruct (IH c Hc Hm) as (g & Hg & Hcg).
    destruct (cell_eq g c0) eqn:E.
    + exists c0. split; [left; reflexivity|]. eapply cell_eq_trans; eassumption.
    + exists g. split; [|exact Hcg]. right. apply filter_In. split; [exact Hg|].
      rewrite E. reflexivity.
Qed.

Lemma occurrences_filter_le : forall g p l,
  occurrences g (filter p l) <= occurrences g l.
Proof.
  intros g p. unfold occurrences. induction l as [|c l IH]; [simpl; lia|].
  simpl. destruct (p c); simpl; destruct (cell_eq c g); simpl; lia.
Qed.

Lemma Series_unique_once : forall l g, occurrences g (Series_unique l) <= 1.
Proof.
  induction l as [|c l IH]; intro g; [unfold occurrences; simpl; lia|].
  cbn [Series_unique]. unfold occurrences. cbn [filter].
  destruct (cell_eq c g) eqn:E.
  - cbn [List.length]. rewrite filter_none; [simpl; lia|].
    intros d Hd. apply filter_In in Hd as [_ Hd]. apply negb_true_iff in Hd.
    rewrite <- (cell_eq_congr c g d E). exact Hd.
  - fold (occurrences g (filter (fun d => negb (cell_eq d c)) (Series_unique l))).
    pose proof (occurrences_filter_le g (fun d => negb (cell_eq d c)) (Series_unique l)).
    specialize (IH g). lia.
Qed.

Lemma filter_perm : forall (A : Type) (p : A -> bool) (l l' : list A),
  Permutation l l' -> Permutation (filter p l) (filter p l').
Proof.
  intros A p l l' H. induction H as [|a l l' H IH|a b l|l l' l'' H1 IH1 H2 IH2].
  - constructor.
  - simpl. destruct (p a); [constructor|]; exact IH.
  - simpl. destruct (p a), (p b); try reflexivity. apply perm_swap.
  - etransitivity; eassumption.
Qed.

Lemma insort_perm : forall x l s, insort x l = Some s -> Permutation s (x :: l).
Proof.
  intros x. induction l as [|y l IH]; intros s H.
  - injection H as <-. reflexivity.
  - cbn [insort] in H. destruct (cell_lt y x) as [[|]|]; try discriminate.
    + destruct (insort x l) as [s'|]; [|discriminate]. injection H as <-.
      rewrite (IH s' eq_refl). apply perm_swap.
    + injection H as <-. reflexivity.
Qed.

Lemma py_sorted_perm : forall l s, py_sorted l = Some s -> Permutation s l.
Proof.
  induction l as [|x l IH]; intros s H.
  - injection H as <-. reflexivity.
  - cbn [py_sorted] in H. destruct (py_sorted l) as [s'|]; [|discriminate].
    rewrite (insort_perm x s' s H). constructor. apply IH. reflexivity.
Qed.

Lemma insort_sorted : forall x l s,
  Sorted ascending l -> insort x l = Some s -> Sorted ascending s.
Proof.
  intros x. induction l as [|y l IH]; intros s Hl H.
  - injection H as <-. repeat constructor.
  - cbn [insort] in H. destruct (cell_lt y x) as [[|]|] eqn:E; try discriminate.
    + destruct (insort x l) as [s'|] eqn:Es; [|discriminate]. injection H as <-.
      inversion Hl as [|? ? Hs Hh]; subst.
      constructor; [apply (IH s' Hs eq_refl)|].
      destruct l as [|z l]; cbn [insort] in Es.
      * injection Es as <-. constructor. apply cell_lt_asym. exact E.
      * destruct (cell_lt z x) as [[|]|]; try discriminate.
        -- destruct (insort x l); [|discriminate]. injection Es as <-.
           constructor. inversion Hh; assumption.
        -- injection Es as <-. constructor. apply cell_lt_asym. exact E.
    + injection H as <-. constructor; [exact Hl|]. constructor. exact E.
Qed.

Lemma py_sorted_sorted : forall l s, py_sorted l = Some s -> Sorted ascending s.
Proof.
  induction l as [|x l IH]; intros s H.
  - injection H as <-. constructor.
  - cbn [py_sorted] in H. destruct (py_sorted l) as [s'|]; [|discriminate].
    eapply insort_sorted; [apply IH; reflexivity|exact H].
Qed.

Lemma cell_lt_kind : forall a b, cell_lt a b = None <-> same_kind a b = false.
Proof.
  intros [|x|s] [|y|t]; cbn; split; intro H; reflexivity || discriminate.
Qed.

Lemma same_kind_trans : forall a b c,
  same_kind a b = true -> same_kind b c = true -> same_kind a c = true.
Proof.
  intros [|x|s] [|y|t] [|z|u]; cbn; intros; reflexivity || discriminate.
Qed.

Lemma same_kind_sym : forall a b, same_kind a b = same_kind b a.
Proof.
  intros [|x|s] [|y|t]; reflexivity.
Qed.

Lemma same_kind_refl : forall a, is_missing a = false -> same_kind a a = true.
Proof.
  intros [|x|s] H; try discriminate; reflexivity.
Qed.

Lemma insort_some : forall x l,
  (forall y, In y l -> same_kind y x = true) -> exists s, insort x l = Some s.
Proof.
  intros x. induction l as [|y l IH]; intro H; [eexists; reflexivity|].
  cbn [insort]. destruct (cell_lt y x) as [[|]|] eqn:E.
  - destruct IH as [s Hs]; [intros; apply H; right; assumption|].
    rewrite Hs. eexists. reflexivity.
  - eexists. reflexivity.
  - apply cell_lt_kind in E. rewrite H in E by (left; reflexivity). discriminate.
Qed.

(** [sorted] raises exactly on a list that mixes text and numbers. *)
Lemma py_sorted_some : forall l,
  Forall (fun c => is_missing c = false) l ->
  (py_sorted l <> None <-> forall a b, In a l -> In b l -> same_kind a b = true).
Proof.
  induction l as [|x l IH]; intro Hm.
  - split; [intros _ a b []|discriminate].
  - inversion Hm as [|? ? Hx Hl]; subst. specialize (IH Hl).
    cbn [py_sorted]. split.
    + intro H. destruct (py_sorted l) as [s|] eqn:Es; [|congruence].
      assert (Hk : forall a b, In a l -> In b l -> same_kind a b = true)
        by (apply IH; discriminate).
      assert (Hxl : forall b, In b l -> same_kind x b = true).
      { intros b Hb. destruct s as [|y s].
        - pose proof (py_sorted_perm l [] Es) as P.
          apply Permutation_nil in P. subst l. contradiction.
        - cbn [insort] in H. destruct (cell_lt y x) eqn:E; [|congruence].
          assert (Hyx : same_kind y x = true).
          { destruct (same_kind y x) eqn:K; [reflexivity|].
            apply cell_lt_kind in K. congruence. }
          assert (Hy : In y l).
          { apply (Permutation_in _ (py_sorted_perm l _ Es)). left. reflexivity. }
          rewrite same_kind_sym in Hyx.
          eapply same_kind_trans; [exact Hyx|]. apply Hk; assumption. }
      intros a b [<-|Ha] [<-|Hb].
      * apply same_kind_refl. exact Hx.
      * apply Hxl. exact Hb.
      * rewrite same_kind_sym. apply Hxl. exact Ha.
      * apply Hk; assumption.
    + intro Hk.
      assert (Hs : py_sorted l <> None).
      { apply IH. intros a b Ha Hb. apply Hk; right; assumption. }
      destruct (py_sorted l) as [s|] eqn:Es; [|congruence].
      destruct (insort_some x s) as [s' Hs'].
      * intros y Hy. apply Hk; [right|left; reflexivity].
        apply (Permutation_in _ (py_sorted_perm l s Es)). exact Hy.
      * rewrite Hs'. discriminate.
Qed.

Lemma regionais_In : forall df_long g,
  In g (regionais df_long) ->
  In g (map Regional (rows df_long)) /\ is_missing g = false.
Proof.
  intros df_long g H. unfold regionais in H.
  apply In_Series_unique in H. apply In_dropna. exact H.
Qed.

Lemma regionais_not_missing : forall df_long,
  Forall (fun c => is_missing c = false) (regionais df_long).
Proof.
  intro df_long. apply Forall_forall. intros g Hg.
  apply (regionais_In df_long g Hg).
Qed.

Lemma regionais_complete : forall df_long c,
  In c (map Regional (rows df_long)) -> is_missing c = false ->
  exists g, In g (regionais df_long) /\ cell_eq c g = true.
Proof.
  intros df_long c Hc Hm. unfold regionais.
  apply Series_unique_complete; [|exact Hm].
  apply In_dropna. split; assumption.
Qed.

(** X9.  Every option of the region selector is a label of the long table
    that is not missing, and choosing it gives a frame with at least one
    row; every label of the table that is not missing is offered. *)
Theorem region_options_cover_the_labels :
  forall (df_long : LongTable) (options : list Cell),
  region_options df_long = Some options ->
  (forall g : Cell,
     In g options ->
     is_missing g = false
     /\ In g (map Regional (rows df_long))
     /\ base_rows (montar_base df_long g) <> [])
  /\ (forall r : LongRow,
        In r (rows df_long) -> is_missing (Regional r) = false ->
        exists g : Cell, In g options /\ cell_eq (Regional r) g = true).
Proof.
  intros df_long options H. unfold region_options in H.
  pose proof (py_sorted_perm _ _ H) as P. split.
  - intros g Hg. apply (Permutation_in _ P) in Hg.
    destruct (regionais_In df_long g Hg) as [Hin Hm].
    split; [exact Hm|]. split; [exact Hin|].
    apply in_map_iff in Hin as (r & Hr & Hrin).
    assert (Hsel : In r (filter (fun r => cell_eq (Regional r) g) (rows df_long))).
    { apply filter_In. split; [exact Hrin|]. rewrite Hr. apply cell_eq_refl. exact Hm. }
    unfold montar_base. cbn [base_rows derive]. intro Hnil.
    pose proof (sort_values_perm (categories df_long)
                  (filter (fun r => cell_eq (Regional r) g) (rows df_long))) as Q.
    rewrite Hnil in Q. apply Permutation_nil in Q. rewrite Q in Hsel. contradiction.
  - intros r Hr Hm.
    destruct (regionais_complete df_long (Regional r)) as (g & Hg & Hcg);
      [apply in_map; exact Hr|exact Hm|].
    exists g. split; [|exact Hcg].
    apply (Permutation_in _ (Permutation_sym P)). exact Hg.
Qed.

Lemma region_options_cover_the_labels_witness :
  (forall g : Cell,
     In g [CellStr "G"; CellStr "H"] ->
     is_missing g = false
     /\ In g (map Regional (rows two_groups))
     /\ base_rows (montar_base two_groups g) <> [])
  /\ (forall r : LongRow,
        In r (rows two_groups) -> is_missing (Regional r) = false ->
        exists g : Cell, In g [CellStr "G"; CellStr "H"] /\ cell_eq (Regional r) g = true).
Proof.
  exact (region_options_cover_the_labels two_groups [CellStr "G"; CellStr "H"] eq_refl).
Defined.

(** X10.  The options of the region selector are in ascending order, and
    no label is offered twice. *)
Theorem region_options_sorted_once :
  forall (df_long : LongTable) (options : list Cell),
  region_options df_long = Some options ->
  Sorted ascending options
  /\ forall g : Cell, In g options -> occurrences g options = 1.
Proof.
  intros df_long options H. unfold region_options in H. split.
  - eapply py_sorted_sorted. exact H.
  - intros g Hg. pose proof (py_sorted_perm _ _ H) as P.
    assert (Hle : occurrences g options <= 1).
    { unfold occurrences. rewrite (Permutation_length (filter_perm _ _ _ _ P)).
      apply Series_unique_once. }
    assert (Hge : 1 <= occurrences g options).
    { unfold occurrences.
      assert (Hin : In g (filter (fun c => cell_eq c g) options)).
      { apply filter_In. split; [exact Hg|]. apply cell_eq_refl.
        apply (Permutation_in _ P) in Hg. apply (regionais_In df_long g Hg). }
      destruct (filter (fun c => cell_eq c g) options); [contradiction|simpl; lia]. }
    lia.
Qed.

Lemma region_options_sorted_once_witness :
  Sorted ascending [CellStr "G"; CellStr "H"]
  /\ forall g : Cell,
       In g [CellStr "G"; CellStr "H"] -> occurrences g [CellStr "G"; CellStr "H"] = 1.
Proof.
  exact (region_options_sorted_once two_groups [CellStr "G"; CellStr "H"] eq_refl).
Defined.

Lemma forallb_false : forall (A : Type) (f : A -> bool) (l : list A),
  forallb f l = false -> exists x, In x l /\ f x = false.
Proof.
  intros A f. induction l as [|c l IH]; intro H; [discriminate|].
  cbn [forallb] in H. apply andb_false_iff in H as [H|H].
  - exists c. split; [left; reflexivity|exact H].
  - destruct (IH H) as (x & Hx & Hf). exists x. split; [right|]; assumption.
Qed.

(** A list is of one kind, or holds two cells of different kinds. *)
Lemma mixed_pair : forall l : list Cell,
  (forall a b, In a l -> In b l -> same_kind a b = true)
  \/ exists a b, In a l /\ In b l /\ same_kind a b = false.
Proof.
  intro l. destruct (forallb (fun a => forallb (same_kind a) l) l) eqn:E.
  - left. rewrite forallb_forall in E. intros a b Ha Hb.
    specialize (E a Ha). rewrite forallb_forall in E. apply E. exact Hb.
  - right. apply forallb_false in E as (a & Ha & E).
    apply forallb_false in E as (b & Hb & E). eauto.
Qed.

(** X11.  [sorted(regionais)] raises its [TypeError] exactly when the
    [Regional] column holds both a text label and a number that is not
    missing; on labels of one kind it returns the options. *)
Theorem region_options_type_error : forall df_long : LongTable,
  region_options df_long = None
  <-> exists a b : Cell,
        In a (map Regional (rows df_long)) /\ In b (map Regional (rows df_long))
        /\ is_text a = true /\ is_number b = true /\ is_missing b = false.
Proof.
  intro df_long. unfold region_options.
  pose proof (py_sorted_some (regionais df_long) (regionais_not_missing df_long)) as HS.
  split.
  - intro H.
    assert (Hmix : ~ (forall a b, In a (regionais df_long) -> In b (regionais df_long) ->
                                  same_kind a b = true)).
    { intro Hk. apply HS in Hk. congruence. }
    destruct (mixed_pair (regionais df_long)) as [Hk|Hex]; [contradiction|].
    destruct Hex as (a & b & Ha & Hb & Hab).
    destruct (regionais_In _ _ Ha) as [Hina Hma].
    destruct (regionais_In _ _ Hb) as [Hinb Hmb].
    destruct a as [|x|s], b as [|y|t]; try discriminate.
    + exists (CellStr t), (CellNum x). repeat split; assumption.
    + exists (CellStr s), (CellNum y). repeat split; assumption.
  - intros (a & b & Ha & Hb & Hta & Hnb & Hmb).
    assert (Hma : is_missing a = false) by (destruct a; discriminate || reflexivity).
    destruct (regionais_complete df_long a Ha Hma) as (ga & Hga & Ea).
    destruct (regionais_complete df_long b Hb Hmb) as (gb & Hgb & Eb).
    destruct (py_sorted (regionais df_long)) eqn:Es; [|reflexivity].
    assert (Hk : same_kind ga gb = true) by (apply HS; [congruence|assumption|assumption]).
    destruct a as [|x|s], b as [|y|t]; try discriminate.
    destruct ga as [|x'|s'], gb as [|y'|t']; discriminate.
Qed.

Local Open Scope string_scope.

(* ================================================================== *)
(** * [preparar_df]: outcomes and values *)

Lemma scored_columns_labels : forall df,
  map fst (scored_columns df) = category_labels df.
Proof.
  intro df. unfold scored_columns, category_labels.
  destruct (has_presence_row df); [|reflexivity].
  rewrite map_map. reflexivity.
Qed.

(** [preparar_df] once the sheet has a first column and a row, and its
    first label labels no other column. *)
Lemma preparar_df_steps : forall df,
  0 < row_count df ->
  unique (map fst df) = true ->
  preparar_df df
  = (normalized <- normalize_columns (scored_columns df) ;;
     long <- melt (scored_cells df) normalized ;;
     Categorical (category_labels df) long).
Proof.
  intros [|[name c0] avals] Hpos Hlabels;
    [unfold row_count in Hpos; simpl in Hpos; lia|].
  destruct (rename_first_fresh name c0 avals) as [name' Hren].
  { apply (unique_labels_inv name c0 avals Hlabels). }
  unfold preparar_df. rewrite Hren.
  unfold scored_columns, scored_cells, has_presence_row, category_labels, row_count in *.
  cbn [group_cells tl] in *.
  destruct (cells c0) as [|c l] eqn:Ecells; [simpl in Hpos; lia|].
  cbn [last_cell bind].
  destruct (is_presence_label (last l c)).
  - rewrite cells_drop_last, Ecells, map_map. reflexivity.
  - rewrite Ecells. reflexivity.
Qed.

Lemma existsb_eqb_In : forall (a : string) (l : list string),
  existsb (String.eqb a) l = true <-> In a l.
Proof.
  intros a l. rewrite existsb_exists. split.
  - intros (x & Hx & E). apply String.eqb_eq in E. subst x. exact Hx.
  - intro H. exists a. split; [exact H|apply String.eqb_refl].
Qed.

Lemma existsb_eqb_not_In : forall (a : string) (l : list string),
  existsb (String.eqb a) l = false <-> ~ In a l.
Proof.
  intros a l. rewrite <- existsb_eqb_In. destruct (existsb (String.eqb a) l).
  - split; [discriminate|]. intro H. exfalso. apply H. reflexivity.
  - split; [discriminate|reflexivity].
Qed.

(** X12.  What [preparar_df] can do on a sheet whose columns have distinct
    labels: it raises [IndexError] exactly when the sheet has no
    column or no row; it raises [ValueError] exactly when the sheet has a
    row and a category column labelled [Nota] or [Regional], which [melt]
    refuses; otherwise it returns a long table whose categories are the
    category labels.  No text in a cell makes it raise. *)
Theorem preparar_df_outcome : forall df : DataFrame,
  unique (map fst df) = true ->
  match preparar_df df with
  | Ok df_long =>
      0 < row_count df
      /\ ~ In "Nota" (category_labels df)
      /\ ~ In "Regional" (category_labels df)
      /\ categories df_long = category_labels df
  | Raise IndexError => row_count df = 0
  | Raise ValueError =>
      0 < row_count df
      /\ (In "Nota" (category_labels df) \/ In "Regional" (category_labels df))
  | Raise AttributeError | Raise TypeError => False
  end.
Proof.
  intros df Hlabels.
  assert (Huniq : unique (category_labels df) = true).
  { destruct df as [|[name c0] avals]; [reflexivity|].
    apply (unique_labels_inv name c0 avals Hlabels). }
  destruct (row_count df) as [|n] eqn:En.
  - destruct df as [|[name c0] avals]; [reflexivity|].
    destruct (rename_first_head name c0 avals) as (name' & avals' & Hren).
    unfold preparar_df. rewrite Hren.
    unfold row_count in En. cbn [group_cells] in En.
    destruct (cells c0); [reflexivity|discriminate].
  - rewrite preparar_df_steps by (lia || assumption).
    destruct (normalize_columns_ok (scored_columns df)) as (vs & Hvs & Hnames & _).
    rewrite scored_columns_labels in Hnames.
    rewrite Hvs. cbn [bind]. unfold melt. rewrite Hnames.
    destruct (existsb (String.eqb "Nota") (category_labels df)) eqn:EN.
    + cbn [orb bind]. split; [lia|]. left. apply existsb_eqb_In. exact EN.
    + destruct (existsb (String.eqb "Regional") (category_labels df)) eqn:ER.
      * cbn [orb bind]. split; [lia|]. right. apply existsb_eqb_In. exact ER.
      * cbn [orb bind]. unfold Categorical. rewrite Huniq. cbn [categories].
        split; [lia|]. split; [apply existsb_eqb_not_In; exact EN|].
        split; [apply existsb_eqb_not_In; exact ER|reflexivity].
Qed.

(** A sheet with a round labelled as the value column of the long table. *)
Lemma preparar_df_outcome_witness :
  unique (map fst sheet_reserved) = true
  /\ 0 < row_count sheet_reserved
  /\ (In "Nota" (category_labels sheet_reserved)
      \/ In "Regional" (category_labels sheet_reserved)).
Proof.
  split; [reflexivity|]. exact (preparar_df_outcome sheet_reserved eq_refl).
Defined.

Lemma mapM_app : forall (A B : Type) (f : A -> result B) (l m : list A) (x y : list B),
  mapM f l = Ok x -> mapM f m = Ok y -> mapM f (l ++ m)%list = Ok (x ++ y)%list.
Proof.
  intros A B f. induction l as [|a l IH]; intros m x y Hl Hm.
  - injection Hl as <-. exact Hm.
  - cbn [mapM app] in *. destruct (f a) as [b|]; [|discriminate]. cbn [bind] in *.
    destruct (mapM f l) as [bs|] eqn:E; [|discriminate]. cbn [bind] in *.
    injection Hl as <-. rewrite (IH m bs y eq_refl Hm). reflexivity.
Qed.

(** Mapping a column is parsing each of its cells, whatever its dtype. *)
Lemma normalize_column_cells : forall c : Column,
  normalize_column c = mapM parse_br_number (cells c).
Proof.
  intros [v|v]; cbn [normalize_column cells]; [|reflexivity].
  induction v as [|f v IH]; [reflexivity|].
  cbn [map mapM]. rewrite parse_number_unchanged. cbn [bind].
  rewrite <- IH. reflexivity.
Qed.

Lemma normalize_columns_values : forall cols vs,
  normalize_columns cols = Ok vs ->
  mapM parse_br_number (flat_map (fun nc => cells (snd nc)) cols)
  = Ok (flat_map snd vs).
Proof.
  induction cols as [|[name c] cols IH]; intros vs H.
  - injection H as <-. reflexivity.
  - cbn [normalize_columns] in H.
    destruct (normalize_column c) as [v|] eqn:Ev; [|discriminate]. cbn [bind] in H.
    destruct (normalize_columns cols) as [vs'|]; [|discriminate]. cbn [bind] in H.
    injection H as <-. cbn [flat_map snd].
    apply mapM_app; [|apply IH; reflexivity].
    rewrite <- normalize_column_cells. exact Ev.
Qed.

Lemma block_Nota : forall name reg vals,
  List.length vals = List.length reg -> map Nota (block name reg vals) = vals.
Proof.
  intros name. induction reg as [|r reg IH]; intros [|v vals] H; try discriminate.
  - reflexivity.
  - cbn [block zip_with map Nota]. fold (block name reg vals). f_equal.
    apply IH. simpl in H. lia.
Qed.

Lemma long_rows_Nota : forall reg normalized,
  Forall (fun nv => List.length (snd nv) = List.length reg) normalized ->
  map Nota (long_rows reg normalized) = flat_map snd normalized.
Proof.
  intros reg normalized H. unfold long_rows. rewrite map_of_flat_map.
  apply (flat_map_ext_Forall _ _ _ _ _ _ H).
  intros nv Hnv. apply block_Nota. exact Hnv.
Qed.

Lemma well_formed_rows : forall df, well_formed df = true -> 0 < row_count df.
Proof.
  intros [|[name c0] avals] H; [discriminate|].
  apply (well_formed_inv _ _ _ H).
Qed.

(** On a well-formed sheet: the normalized columns and the table. *)
Lemma preparar_df_normalized : forall df,
  well_formed df = true ->
  exists normalized,
    normalize_columns (scored_columns df) = Ok normalized
    /\ preparar_df df
       = Ok (mk_table (category_labels df) (long_rows (scored_cells df) normalized))
    /\ map fst normalized = category_labels df
    /\ Forall (fun nv => List.length (snd nv) = List.length (scored_cells df)) normalized.
Proof.
  intros df Hwf.
  destruct (preparar_df_ok df Hwf) as (normalized & Hok & Hnames & Hlens).
  pose proof (preparar_df_steps df (well_formed_rows df Hwf) (well_formed_labels df Hwf))
    as Hsteps.
  destruct (normalize_columns (scored_columns df)) as [vs|] eqn:Evs.
  - cbn [bind] in Hsteps. unfold melt, Categorical in Hsteps.
    destruct (existsb (String.eqb "Nota") (map fst vs)
              || existsb (String.eqb "Regional") (map fst vs));
      [rewrite Hsteps in Hok; discriminate|].
    cbn [bind] in Hsteps.
    destruct (unique (category_labels df)).
    + exists vs. split; [reflexivity|]. split; [exact Hsteps|].
      rewrite Hsteps in Hok. injection Hok as Hok.
      assert (Hnames' : map fst vs = category_labels df).
      { destruct (normalize_columns_ok (scored_columns df)) as (vs' & Hvs' & Hn' & _).
        rewrite Evs in Hvs'. injection Hvs' as <-.
        rewrite Hn'. apply scored_columns_labels. }
      split; [exact Hnames'|].
      destruct (normalize_columns_ok (scored_columns df)) as (vs' & Hvs' & _ & Hl').
      rewrite Evs in Hvs'. injection Hvs' as <-.
      apply Hl'. clear - Hwf.
      destruct df as [|[name c0] avals]; [discriminate|].
      destruct (well_formed_inv _ _ _ Hwf) as (Hpos & Hrect & _).
      unfold scored_columns, scored_cells, has_presence_row. cbn [group_cells tl].
      unfold height in *.
      destruct (cells c0) as [|c l] eqn:Ec; [simpl in Hpos; lia|].
      destruct (is_presence_label (last l c)).
      * apply Forall_map. eapply Forall_impl; [|exact Hrect].
        intros nc Hnc. cbn [snd]. rewrite cells_drop_last, !length_removelast_pred.
        rewrite Hnc. reflexivity.
      * exact Hrect.
    + rewrite Hsteps in Hok. discriminate.
  - rewrite Hsteps in Hok. discriminate.
Qed.

(** X13.  On a well-formed sheet, the values of the long table are the
    cells of the category columns, column after column and without the
    attendance row, each passed through [parse_br_number]: text is parsed,
    a number is kept as it is. *)
Theorem preparar_df_values : forall df : DataFrame,
  well_formed df = true ->
  exists df_long : LongTable,
    preparar_df df = Ok df_long
    /\ mapM parse_br_number (flat_map (fun nc => cells (snd nc)) (scored_columns df))
       = Ok (map Nota (rows df_long)).
Proof.
  intros df Hwf.
  destruct (preparar_df_normalized df Hwf) as (normalized & Hn & Hok & _ & Hlens).
  eexists. split; [exact Hok|]. cbn [rows].
  rewrite (long_rows_Nota _ _ Hlens). apply normalize_columns_values. exact Hn.
Qed.

Lemma preparar_df_values_witness :
  exists df_long : LongTable,
    preparar_df sheet_example = Ok df_long
    /\ mapM parse_br_number
         (flat_map (fun nc => cells (snd nc)) (scored_columns sheet_example))
       = Ok (map Nota (rows df_long)).
Proof.
  exact (preparar_df_values sheet_example eq_refl).
Defined.

Local Open Scope list_scope.

(* ================================================================== *)
(** * From the sheet to the chart of one regional *)

Lemma block_none : forall name g reg vals,
  Forall (fun d => cell_eq d g = false) reg ->
  filter (fun r => cell_eq (Regional r) g) (block name reg vals) = [].
Proof.
  intros name g. induction reg as [|r reg IH]; intros vals H; [reflexivity|].
  destruct vals as [|v vals]; [reflexivity|].
  inversion H as [|? ? Hr Hreg]; subst.
  cbn [block zip_with filter Regional]. rewrite Hr. apply IH. exact Hreg.
Qed.

(** The one row a block holds for a regional that occurs once. *)
Lemma block_pick : forall name g before c after vals,
  Forall (fun d => cell_eq d g = false) before ->
  Forall (fun d => cell_eq d g = false) after ->
  cell_eq c g = true ->
  List.length vals = List.length (before ++ c :: after) ->
  filter (fun r => cell_eq (Regional r) g) (block name (before ++ c :: after) vals)
  = [mk_long c name (nth (List.length before) vals nan)].
Proof.
  intros name g. induction before as [|b before IH]; intros c after vals Hb Ha Hc Hlen.
  - destruct vals as [|v vals]; [discriminate|].
    cbn [app block zip_with filter Regional List.length nth]. rewrite Hc.
    f_equal. apply block_none. exact Ha.
  - destruct vals as [|v vals]; [discriminate|].
    inversion Hb as [|? ? Hb0 Hb']; subst.
    cbn [app block zip_with filter Regional List.length nth]. rewrite Hb0.
    apply IH; try assumption. simpl in Hlen. lia.
Qed.

Lemma flat_map_singleton : forall (A B : Type) (f : A -> B) (l : list A),
  flat_map (fun a => [f a]) l = map f l.
Proof.
  intros A B f. induction l as [|a l IH]; [reflexivity|].
  simpl. rewrite IH. reflexivity.
Qed.

Lemma ascending_seq : forall n a, ascending_from a (map Some (seq a n)).
Proof.
  induction n as [|n IH]; intro a; [exact I|].
  cbn [seq map ascending_from]. split; [lia|].
  eapply ascending_from_weaken; [|apply IH]. lia.
Qed.

Lemma mapM_length : forall (A B : Type) (f : A -> result B) (l : list A) (vs : list B),
  mapM f l = Ok vs -> List.length vs = List.length l.
Proof.
  intros A B f. induction l as [|a l IH]; intros vs H.
  - injection H as <-. reflexivity.
  - cbn [mapM] in H. destruct (f a); [|discriminate]. cbn [bind] in H.
    destruct (mapM f l) as [bs|]; [|discriminate]. cbn [bind] in H.
    injection H as <-. simpl. f_equal. apply IH. reflexivity.
Qed.

Lemma mapM_nth : forall (A B : Type) (f : A -> result B) (l : list A) (vs : list B) i d e,
  mapM f l = Ok vs -> i < List.length l -> f (nth i l d) = Ok (nth i vs e).
Proof.
  intros A B f. induction l as [|a l IH]; intros vs i d e H Hi; [simpl in Hi; lia|].
  cbn [mapM] in H. destruct (f a) as [b|] eqn:Ea; [|discriminate]. cbn [bind] in H.
  destruct (mapM f l) as [bs|] eqn:El; [|discriminate]. cbn [bind] in H.
  injection H as <-. destruct i as [|i]; [exact Ea|].
  cbn [nth]. apply (IH bs i d e eq_refl). simpl in Hi. lia.
Qed.

(** The cell of row [i] of each column against the value of row [i] of its
    normalized column. *)
Lemma normalize_columns_row : forall cols vs i,
  normalize_columns cols = Ok vs ->
  Forall (fun nv => i < List.length (snd nv)) vs ->
  mapM parse_br_number (map (fun nc => nth i (cells (snd nc)) CellNone) cols)
  = Ok (map (fun nv => nth i (snd nv) nan) vs).
Proof.
  induction cols as [|[name c] cols IH]; intros vs i H Hi.
  - injection H as <-. reflexivity.
  - cbn [normalize_columns] in H.
    destruct (normalize_column c) as [v|] eqn:Ev; [|discriminate]. cbn [bind] in H.
    destruct (normalize_columns cols) as [vs'|] eqn:Evs; [|discriminate]. cbn [bind] in H.
    injection H as <-. inversion Hi as [|? ? Hv Hvs]; subst. cbn [snd] in Hv.
    rewrite normalize_column_cells in Ev.
    cbn [map mapM snd].
    rewrite (mapM_nth _ _ _ _ _ i CellNone nan Ev)
      by (rewrite <- (mapM_length _ _ _ _ _ Ev); exact Hv).
    cbn [bind]. rewrite (IH vs' i eq_refl Hvs). reflexivity.
Qed.

(** X14.  From the sheet to the chart: for a regional that labels exactly
    one scored row of a well-formed sheet, the frame of [montar_base] over
    the table of [preparar_df] has one row per category column, in the
    order of the columns, and its values are the cells of that sheet row
    passed through [parse_br_number]. *)
Theorem chart_of_regional :
  forall (df : DataFrame) (regional c : Cell) (before after : list Cell),
  well_formed df = true ->
  scored_cells df = before ++ c :: after ->
  cell_eq c regional = true ->
  Forall (fun d => cell_eq d regional = false) before ->
  Forall (fun d => cell_eq d regional = false) after ->
  exists df_long : LongTable,
    preparar_df df = Ok df_long
    /\ map Avaliacao (base_rows (montar_base df_long regional)) = category_labels df
    /\ mapM parse_br_number
         (map (fun nc => nth (List.length before) (cells (snd nc)) CellNone)
              (scored_columns df))
       = Ok (map Nota (base_rows (montar_base df_long regional))).
Proof.
  intros df regional c before after Hwf Hreg Hc Hb Ha.
  destruct (preparar_df_normalized df Hwf) as (normalized & Hn & Hok & Hnames & Hlens).
  eexists. split; [exact Hok|].
  unfold montar_base. cbn [rows categories base_rows derive].
  set (pick := fun nv : string * list float =>
                 mk_long c (fst nv) (nth (List.length before) (snd nv) nan)).
  assert (Hsel : filter (fun r => cell_eq (Regional r) regional)
                        (long_rows (scored_cells df) normalized)
                 = map pick normalized).
  { unfold long_rows. rewrite filter_of_flat_map, <- flat_map_singleton.
    apply (flat_map_ext_Forall _ _ _ _ _ _ Hlens).
    intros nv Hnv. rewrite Hreg in *. apply block_pick; assumption. }
  rewrite Hsel.
  assert (Hlabels : map Avaliacao (map pick normalized) = category_labels df).
  { rewrite map_map. cbn [pick Avaliacao]. exact Hnames. }
  assert (Hsorted : sort_values (category_labels df) (map pick normalized)
                    = map pick normalized).
  { apply (sort_values_ascending _ _ 0).
    rewrite <- (map_map Avaliacao (category_code (category_labels df))), Hlabels.
    rewrite category_codes.
    - apply ascending_seq.
    - destruct df as [|[name c0] avals]; [discriminate|].
      apply (well_formed_inv _ _ _ Hwf). }
  rewrite Hsorted. split; [exact Hlabels|].
  rewrite map_map. cbn [pick Nota].
  apply normalize_columns_row; [exact Hn|].
  eapply Forall_impl; [|exact Hlens].
  intros nv Hnv. cbn beta in Hnv. rewrite Hnv, Hreg, length_app. simpl. lia.
Qed.

Lemma chart_of_regional_witness :
  exists df_long : LongTable,
    preparar_df sheet_example = Ok df_long
    /\ map Avaliacao (base_rows (montar_base df_long (CellStr "Sul")))
       = category_labels sheet_example
    /\ mapM parse_br_number
         (map (fun nc => nth (List.length [CellStr "Norte"]) (cells (snd nc)) CellNone)
              (scored_columns sheet_example))
       = Ok (map Nota (base_rows (montar_base df_long (CellStr "Sul")))).
Proof.
  apply (chart_of_regional sheet_example (CellStr "Sul") (CellStr "Sul")
           [CellStr "Norte"] []); try reflexivity; repeat constructor.
Defined.

Local Open Scope string_scope.

(* ================================================================== *)
(** * What cleaning and canonical form leave out *)

Lemma contains_char_app : forall c a b,
  contains (String c "") (a ++ b) = contains (String c "") a || contains (String c "") b.
Proof.
  intros c. induction a as [|x a IH]; intro b.
  - simpl. destruct (contains (String c "") b); reflexivity.
  - cbn [append contains]. rewrite !startswith_char, IH. apply orb_assoc.
Qed.

(** After [replace(c, new)] no [c] is left, when [new] holds none. *)
Lemma subst_char_removes : forall c new s,
  contains (String c "") new = false ->
  contains (String c "") (subst_char c new s) = false.
Proof.
  intros c new s Hnew. induction s as [|a s IH]; [reflexivity|].
  cbn [subst_char]. destruct (Ascii.eqb c a) eqn:E.
  - rewrite contains_char_app, Hnew, IH. reflexivity.
  - cbn [contains]. rewrite startswith_char, E, IH. reflexivity.
Qed.

(** Removing a pattern brings in no character. *)
Lemma replace_from_no_new_char : forall c old s k,
  contains (String c "") s = false ->
  contains (String c "") (replace_from old "" k s) = false.
Proof.
  intros c old. induction s as [|a s IH]; intros k H; [reflexivity|].
  cbn [contains] in H. rewrite startswith_char in H.
  apply orb_false_iff in H as [Ha Hs].
  cbn [replace_from]. destruct k as [|k]; [|apply IH; exact Hs].
  destruct (startswith old (String a s)).
  - cbn [append]. apply IH. exact Hs.
  - cbn [contains]. rewrite startswith_char, Ha. apply IH. exact Hs.
Qed.

Lemma replace_no_new_char : forall c old s,
  contains (String c "") s = false ->
  contains (String c "") (replace s old "") = false.
Proof.
  intros c old s H. unfold replace. apply replace_from_no_new_char. exact H.
Qed.

(** X15.  The cleaned text holds no space and no percent sign, whatever the
    input. *)
Theorem cleaned_has_no_space_no_percent : forall x : string,
  contains " " (cleaned x) = false /\ contains "%" (cleaned x) = false.
Proof.
  intro x. unfold cleaned, symbols. cbn [fold_left]. split.
  - do 2 apply replace_no_new_char.
    rewrite replace_char. apply subst_char_removes. reflexivity.
  - rewrite replace_char. apply subst_char_removes. reflexivity.
Qed.

(** The currency mark can outlive the cleaning, which removes it once from
    left to right. *)
Example cleaned_keeps_a_currency_mark :
  cleaned "RR$$ 5" = "R$5" /\ cleaned "R%$ 5" = "R$5"
  /\ parse_br_number (CellStr "RR$$ 5") = Ok nan.
Proof.
  repeat split.
Qed.

Lemma canonical_comma_free : forall s, contains "," (canonical s) = false.
Proof.
  intro s. unfold canonical.
  destruct (contains "," s && contains "." s);
    [destruct (rfind s "," >? rfind s ".")%Z|destruct (contains "," s) eqn:E].
  - rewrite (replace_char ","%char). apply subst_char_removes. reflexivity.
  - rewrite replace_char. apply subst_char_removes. reflexivity.
  - rewrite (replace_char ","%char). apply subst_char_removes. reflexivity.
  - rewrite replace_char. apply subst_char_removes. reflexivity.
Qed.

(** X16.  The text handed to the float parser never holds a comma: in every
    branch of lines 42-50 each comma is removed or becomes a dot. *)
Theorem canonical_has_no_comma : forall s : string,
  contains "," (canonical s) = false
  /\ forall c : ascii, In c (separators (canonical s)) -> c = "."%char.
Proof.
  intro s. pose proof (canonical_comma_free s) as H. split; [exact H|].
  intros c Hc.
  rewrite (contains_separator ","%char) in H by reflexivity.
  assert (Hsep : is_separator c = true).
  { clear -Hc. induction (canonical s) as [|a t IH]; [contradiction|].
    cbn [separators] in Hc. destruct (is_separator a) eqn:Ea; [|auto].
    destruct Hc as [<-|Hc]; auto. }
  destruct (is_separator_cases c Hsep) as [-> | ->]; [|reflexivity].
  assert (Hex : existsb (Ascii.eqb ",") (separators (canonical s)) = true).
  { apply existsb_exists. exists ","%char. split; [exact Hc|reflexivity]. }
  congruence.
Qed.

(** X17.  Putting a text in canonical form twice is putting it once. *)
Theorem canonical_idempotent : forall s : string,
  canonical (canonical s) = canonical s.
Proof.
  intro s. apply canonical_no_comma. apply canonical_comma_free.
Qed.

Local Open Scope string_scope.
Local Open Scope nat_scope.

(* ================================================================== *)
(** * White space around a text *)

Lemma append_nil_r : forall s : string, s ++ "" = s.
Proof.
  induction s as [|c s IH]; [reflexivity|]. simpl. rewrite IH. reflexivity.
Qed.

Lemma append_inv_head : forall a b d : string, a ++ b = a ++ d -> b = d.
Proof.
  induction a as [|c a IH]; intros b d H; [exact H|].
  simpl in H. inversion H. apply IH. assumption.
Qed.

(** Of two texts that begin one longer text, one begins the other. *)
Lemma append_prefix_cases : forall a b c d : string,
  a ++ b = c ++ d -> startswith a c = true \/ startswith c a = true.
Proof.
  induction a as [|x a IH]; intros b c d H.
  - left. reflexivity.
  - destruct c as [|y c]; [right; reflexivity|].
    simpl in H. inversion H as [[Hxy Hrest]]. subst y.
    cbn [startswith]. rewrite Ascii.eqb_refl. cbn [andb].
    apply (IH b c d Hrest).
Qed.

Lemma startswith_same_length : forall a c,
  startswith a c = true -> startswith c a = true -> a = c.
Proof.
  induction a as [|x a IH]; intros [|y c] H1 H2; try discriminate; [reflexivity|].
  cbn [startswith] in *. apply andb_true_iff in H1 as [E H1].
  apply andb_true_iff in H2 as [_ H2].
  apply Ascii.eqb_eq in E. subst y. f_equal. apply IH; assumption.
Qed.

Lemma whitespace_nonempty : forall w, In w whitespace -> exists c t, w = String c t.
Proof.
  assert (H : forallb (fun w => match w with EmptyString => false | _ => true end)
                      whitespace = true) by reflexivity.
  rewrite forallb_forall in H. intros w Hw. specialize (H w Hw).
  destruct w as [|c t]; [discriminate|eauto].
Qed.

(** No white-space character begins another one. *)
Lemma whitespace_prefix_free : forall w w',
  In w whitespace -> In w' whitespace -> startswith w' w = true -> w' = w.
Proof.
  assert (H : forallb (fun w => forallb (fun w' => implb (startswith w' w) (String.eqb w' w))
                                        whitespace) whitespace = true)
    by (vm_compute; reflexivity).
  rewrite forallb_forall in H. intros w w' Hw Hw' Hs.
  specialize (H w Hw). rewrite forallb_forall in H. specialize (H w' Hw').
  rewrite Hs in H. apply String.eqb_eq. exact H.
Qed.

Lemma drop_one_of_some : forall ws s w,
  In w ws -> startswith w s = true -> exists r, drop_one_of ws s = Some r.
Proof.
  induction ws as [|w0 ws IH]; intros s w Hw Hs; [contradiction|].
  cbn [drop_one_of]. destruct (startswith w0 s) eqn:E; [eauto|].
  destruct Hw as [->|Hw]; [congruence|]. eapply IH; eassumption.
Qed.

Lemma drop_one_of_whitespace : forall w s,
  In w whitespace -> drop_one_of whitespace (w ++ s) = Some s.
Proof.
  intros w s Hw.
  destruct (drop_one_of_some whitespace (w ++ s) w Hw (startswith_app w s)) as [r Hr].
  rewrite Hr. f_equal.
  destruct (drop_one_of_split _ _ _ Hr) as (w' & Hw' & Hsplit).
  assert (Heq : w' = w).
  { destruct (append_prefix_cases _ _ _ _ Hsplit) as [H|H].
    - symmetry. apply (whitespace_prefix_free w' w Hw' Hw H).
    - apply (whitespace_prefix_free w w' Hw Hw' H). }
  subst w'. symmetry. eapply append_inv_head. exact Hsplit.
Qed.

Lemma drop_one_of_empty : drop_one_of whitespace "" = None.
Proof.
  reflexivity.
Qed.

Lemma drop_one_of_shorter : forall s s',
  drop_one_of whitespace s = Some s' -> String.length s' < String.length s.
Proof.
  intros s s' H. destruct (drop_one_of_split _ _ _ H) as (w & Hw & ->).
  destruct (whitespace_nonempty w Hw) as (c & t & ->).
  rewrite length_append. simpl. lia.
Qed.

(** More fuel than the length changes nothing. *)
Lemma lstrip_fuel_enough : forall n m s,
  String.length s <= n -> String.length s <= m ->
  lstrip_fuel n s = lstrip_fuel m s.
Proof.
  induction n as [|n IH]; intros m s Hn Hm.
  - destruct s; [|simpl in Hn; lia]. destruct m; reflexivity.
  - destruct m as [|m].
    + destruct s; [reflexivity|simpl in Hm; lia].
    + cbn [lstrip_fuel]. destruct (drop_one_of whitespace s) as [s'|] eqn:E; [|reflexivity].
      pose proof (drop_one_of_shorter s s' E). apply IH; lia.
Qed.

Lemma lstrip_whitespace : forall w s, In w whitespace -> lstrip (w ++ s) = lstrip s.
Proof.
  intros w s Hw. unfold lstrip.
  destruct (whitespace_nonempty w Hw) as (c & t & E).
  assert (Hlen : String.length (w ++ s) = S (String.length t + String.length s)).
  { rewrite E. simpl. rewrite length_append. reflexivity. }
  rewrite Hlen. cbn [lstrip_fuel]. rewrite (drop_one_of_whitespace w s Hw).
  apply lstrip_fuel_enough; lia.
Qed.

Lemma lstrip_Blank : forall a s, Blank a -> lstrip (a ++ s) = lstrip s.
Proof.
  intros a s H. induction H as [|w a Hw Ha IH]; [reflexivity|].
  rewrite append_assoc, (lstrip_whitespace w _ Hw). exact IH.
Qed.

Lemma lstrip_fuel_Blank : forall n s, lstrip_fuel n s = "" -> Blank s.
Proof.
  induction n as [|n IH]; intros s H.
  - cbn in H. subst. constructor.
  - cbn [lstrip_fuel] in H. destruct (drop_one_of whitespace s) as [s'|] eqn:E.
    + destruct (drop_one_of_split _ _ _ E) as (w & Hw & ->).
      constructor; [exact Hw|]. apply IH. exact H.
    + subst. constructor.
Qed.

Lemma isblank_Blank : forall s, isblank s = true <-> Blank s.
Proof.
  intro s. unfold isblank. split.
  - intro H. apply (lstrip_fuel_Blank (String.length s)). fold (lstrip s).
    destruct (lstrip s); [reflexivity|discriminate].
  - intro H. rewrite <- (append_nil_r s), (lstrip_Blank s "" H). reflexivity.
Qed.

Lemma Blank_head : forall c t,
  Blank (String c t) -> exists v v', In v whitespace /\ v = String c v'.
Proof.
  intros c t H. remember (String c t) as s eqn:Es.
  induction H as [|w s' Hw Hs IH]; [discriminate|].
  destruct (whitespace_nonempty w Hw) as (c' & w' & ->).
  simpl in Es. inversion Es; subst. eauto.
Qed.

(** The bytes a white-space character has after its first one begin no
    white-space character. *)
Lemma whitespace_inner_bytes : forall w v c c0 p q v',
  In w whitespace -> In v whitespace ->
  w = String c0 p ++ String c q -> v = String c v' -> False.
Proof.
  assert (H : forallb
                (fun w => forallb
                   (fun v => match w, v with
                             | String _ t, String h _ =>
                                 negb (existsb (Ascii.eqb h) (list_ascii_of_string t))
                             | _, _ => true
                             end) whitespace) whitespace = true)
    by (vm_compute; reflexivity).
  rewrite forallb_forall in H.
  intros w v c c0 p q v' Hw Hv Ew Ev.
  specialize (H w Hw). rewrite forallb_forall in H. specialize (H v Hv).
  subst w v. cbn [append] in H. apply negb_true_iff in H.
  assert (Hex : existsb (Ascii.eqb c) (list_ascii_of_string (p ++ String c q)) = true).
  { clear. induction p as [|x p IH]; simpl.
    - rewrite Ascii.eqb_refl. reflexivity.
    - rewrite IH. apply orb_true_r. }
  congruence.
Qed.

(** A text that begins with no white space still begins with none when
    white space follows it. *)
Lemma drop_one_of_none_app : forall y b,
  y <> "" -> drop_one_of whitespace y = None -> Blank b ->
  drop_one_of whitespace (y ++ b) = None.
Proof.
  intros y b Hy Hnone Hb.
  destruct (drop_one_of whitespace (y ++ b)) as [r|] eqn:E; [|reflexivity].
  exfalso. destruct (drop_one_of_split _ _ _ E) as (w & Hw & Hsplit).
  destruct (append_prefix_cases _ _ _ _ Hsplit) as [H|H].
  - pose proof (startswith_split y w H) as Ew.
    set (q := substring (String.length y) (String.length w - String.length y) w) in Ew.
    destruct q as [|c q'] eqn:Eq.
    + rewrite append_nil_r in Ew.
      assert (Hs : startswith w y = true) by (rewrite Ew; rewrite <- (append_nil_r y) at 2; apply startswith_app).
      destruct (drop_one_of_some whitespace y w Hw Hs) as [r' Hr']. congruence.
    + destruct y as [|c0 p]; [congruence|].
      rewrite Ew, append_assoc in Hsplit. apply append_inv_head in Hsplit.
      cbn [append] in Hsplit.
      assert (HB : Blank (String c (q' ++ r))) by (rewrite <- Hsplit; exact Hb).
      destruct (Blank_head _ _ HB) as (v & v' & Hv & Ev).
      exact (whitespace_inner_bytes w v c c0 p q' v' Hw Hv Ew Ev).
  - destruct (drop_one_of_some whitespace y w Hw H) as [r' Hr']. congruence.
Qed.

(** [lstrip] of a text followed by white space. *)
Lemma lstrip_app_Blank : forall b, Blank b -> forall n y,
  String.length y <= n ->
  lstrip (y ++ b) = match lstrip_fuel n y with
                    | EmptyString => EmptyString
                    | r => r ++ b
                    end.
Proof.
  intros b Hb. induction n as [|n IH]; intros y Hn.
  - destruct y; [|simpl in Hn; lia]. cbn [append lstrip_fuel].
    apply isblank_Blank in Hb. unfold isblank in Hb.
    destruct (lstrip b); [reflexivity|discriminate].
  - cbn [lstrip_fuel]. destruct (drop_one_of whitespace y) as [y'|] eqn:E.
    + pose proof (drop_one_of_shorter y y' E).
      destruct (drop_one_of_split _ _ _ E) as (w & Hw & ->).
      rewrite append_assoc, (lstrip_whitespace w _ Hw). apply IH. lia.
    + destruct y as [|c y'].
      * cbn [append]. apply isblank_Blank in Hb. unfold isblank in Hb.
        destruct (lstrip b); [reflexivity|discriminate].
      * unfold lstrip. cbn [append String.length lstrip_fuel].
        change (String c (y' ++ b)) with (String c y' ++ b).
        rewrite (drop_one_of_none_app (String c y') b); [reflexivity|discriminate|exact E|exact Hb].
Qed.

Lemma isblank_app_Blank : forall y b, Blank b -> isblank (y ++ b) = isblank y.
Proof.
  intros y b Hb. unfold isblank.
  rewrite (lstrip_app_Blank b Hb (String.length y) y (le_n _)). fold (lstrip y).
  destruct (lstrip y); reflexivity.
Qed.

Lemma rstrip_app_Blank : forall y b, Blank b -> rstrip (y ++ b) = rstrip y.
Proof.
  intros y b Hb. induction y as [|c y IH].
  - cbn [append rstrip]. destruct b as [|c t]; [reflexivity|].
    cbn [rstrip]. apply isblank_Blank in Hb. rewrite Hb. reflexivity.
  - cbn [append rstrip].
    change (String c (y ++ b)) with (String c y ++ b).
    rewrite (isblank_app_Blank (String c y) b Hb), IH. reflexivity.
Qed.

Lemma strip_Blank : forall a b x,
  Blank a -> Blank b -> strip (a ++ x ++ b) = strip x.
Proof.
  intros a b x Ha Hb. unfold strip.
  rewrite (lstrip_Blank a _ Ha).
  rewrite (lstrip_app_Blank b Hb (String.length x) x (le_n _)). fold (lstrip x).
  destruct (lstrip x) as [|c r] eqn:E; [reflexivity|].
  apply rstrip_app_Blank. exact Hb.
Qed.

(** X18.  White space around a text, of any of the kinds [str.strip]
    removes, does not change what [parse_br_number] reads in it. *)
Theorem parse_br_number_ignores_outer_space : forall a b x : string,
  isblank a = true -> isblank b = true ->
  strip (a ++ x ++ b) = strip x
  /\ parse_br_number (CellStr (a ++ x ++ b)) = parse_br_number (CellStr x).
Proof.
  intros a b x Ha Hb. apply isblank_Blank in Ha, Hb.
  pose proof (strip_Blank a b x Ha Hb) as H. split; [exact H|].
  cbn [parse_br_number]. unfold cleaned. rewrite H. reflexivity.
Qed.

Lemma parse_br_number_ignores_outer_space_witness :
  strip ((" " ++ nbsp) ++ "452,74" ++ of_bytes [9; 226; 128; 131]) = strip "452,74"
  /\ parse_br_number (CellStr ((" " ++ nbsp) ++ "452,74" ++ of_bytes [9; 226; 128; 131]))
     = parse_br_number (CellStr "452,74").
Proof.
  exact (parse_br_number_ignores_outer_space
           (" " ++ nbsp) (of_bytes [9; 226; 128; 131]) "452,74" eq_refl eq_refl).
Defined.

Local Open Scope Z_scope.

(* ================================================================== *)
(** * The two decimals of [fnum] and [fsgn] *)

(** [round_hundredths] picks the nearest integer, the even one on a tie. *)
Lemma round_hundredths_nearest : forall (m : positive) (e : Z),
  let n := Float64.round_hundredths m e in
  let d := 2 ^ Z.max 0 (- e) in
  let u := 2 ^ Z.max 0 e in
  2 * Z.abs (n * d - 100 * Z.pos m * u) <= d
  /\ (2 * Z.abs (n * d - 100 * Z.pos m * u) = d -> Z.even n = true).
Proof.
  intros m e n d u. unfold n, d, u, Float64.round_hundredths.
  destruct (0 <=? e) eqn:He.
  - apply Z.leb_le in He.
    rewrite (Z.max_l 0 (- e)) by lia. rewrite (Z.max_r 0 e) by lia.
    change (2 ^ 0) with 1.
    replace (Z.pos m * 2 ^ e * 100 * 1 - 100 * Z.pos m * 2 ^ e) with 0 by ring.
    simpl. split; [lia|]. intro H. discriminate.
  - apply Z.leb_gt in He.
    rewrite (Z.max_r 0 (- e)) by lia. rewrite (Z.max_l 0 e) by lia.
    change (2 ^ 0) with 1.
    assert (Hd : 0 < 2 ^ (- e)) by (apply Z.pow_pos_nonneg; lia).
    set (D := 2 ^ (- e)) in *. set (N := Z.pos m * 100).
    pose proof (Z.div_mod N D ltac:(lia)) as Hdiv.
    pose proof (Z.mod_pos_bound N D Hd) as Hmod.
    set (q := N / D) in *. set (r := N mod D) in *.
    replace (100 * Z.pos m * 1) with N by (unfold N; ring).
    cbv zeta.
    destruct (2 * r <? D) eqn:E1; [apply Z.ltb_lt in E1|apply Z.ltb_ge in E1].
    + replace (q * D - N) with (- r) by lia. rewrite Z.abs_opp, Z.abs_eq by lia.
      split; lia.
    + destruct (D <? 2 * r) eqn:E2; [apply Z.ltb_lt in E2|apply Z.ltb_ge in E2].
      * replace ((q + 1) * D - N) with (D - r) by lia. rewrite Z.abs_eq by lia.
        split; lia.
      * destruct (Z.even q) eqn:E3.
        -- replace (q * D - N) with (- r) by lia. rewrite Z.abs_opp, Z.abs_eq by lia.
           split; [lia|intros _; exact E3].
        -- replace ((q + 1) * D - N) with (D - r) by lia. rewrite Z.abs_eq by lia.
           split; [lia|]. intros _. rewrite Z.even_add, E3. reflexivity.
Qed.

Lemma finite_not_nan : forall (x : float) s m e,
  Prim2SF x = S754_finite s m e -> is_nan x = false.
Proof.
  intros x s m e H. unfold is_nan. rewrite eqb_spec, H. unfold SFeqb.
  rewrite SFcompare_refl by discriminate. reflexivity.
Qed.

(** X19.  The number [fnum] and [fsgn] print for a finite value is its
    nearest number of hundredths, the even one when two are as near: with
    the value [m * 2^e] in absolute terms, they print [n / 100] to two
    decimals where [n] is within half a unit of [100 * m * 2^e]. *)
Theorem labels_round_to_nearest_hundredth :
  forall (x : float) (s : bool) (m : positive) (e : Z),
  Prim2SF x = S754_finite s m e ->
  exists n : Z,
    fnum x = (Float64.sign_text false s ++ Float64.fixed2 n)%string
    /\ fsgn x = (Float64.sign_text true s ++ Float64.fixed2 n)%string
    /\ 2 * Z.abs (n * 2 ^ Z.max 0 (- e) - 100 * Z.pos m * 2 ^ Z.max 0 e)
       <= 2 ^ Z.max 0 (- e)
    /\ (2 * Z.abs (n * 2 ^ Z.max 0 (- e) - 100 * Z.pos m * 2 ^ Z.max 0 e)
        = 2 ^ Z.max 0 (- e) -> Z.even n = true).
Proof.
  intros x s m e H. exists (Float64.round_hundredths m e).
  pose proof (finite_not_nan x s m e H) as Hn.
  unfold fnum, fsgn, Float64.format_2f. rewrite Hn, H.
  split; [reflexivity|]. split; [reflexivity|].
  apply round_hundredths_nearest.
Qed.

Lemma labels_round_to_nearest_hundredth_witness :
  exists n : Z,
    fnum 0.125 = (Float64.sign_text false false ++ Float64.fixed2 n)%string
    /\ fsgn 0.125 = (Float64.sign_text true false ++ Float64.fixed2 n)%string
    /\ 2 * Z.abs (n * 2 ^ Z.max 0 (- (-55)) - 100 * Z.pos 4503599627370496 * 2 ^ Z.max 0 (-55))
       <= 2 ^ Z.max 0 (- (-55))
    /\ (2 * Z.abs (n * 2 ^ Z.max 0 (- (-55)) - 100 * Z.pos 4503599627370496 * 2 ^ Z.max 0 (-55))
        = 2 ^ Z.max 0 (- (-55)) -> Z.even n = true).
Proof.
  exact (labels_round_to_nearest_hundredth 0.125 false 4503599627370496 (-55) eq_refl).
Defined.

Local Open Scope string_scope.

(** X20.  [fsgn] always shows a sign: its text is that of [fnum] when this
    begins with a minus sign (negative values, the negative zero included)
    or is the em dash of a missing value, and that of [fnum] after a plus
    sign otherwise. *)
Theorem fsgn_shows_the_sign : forall x : float,
  (is_nan x = true /\ fsgn x = em_dash /\ fnum x = em_dash)
  \/ (is_nan x = false /\ exists rest : string,
        (fnum x = "-" ++ rest /\ fsgn x = fnum x)
        \/ (fnum x = rest /\ fsgn x = "+" ++ rest
            /\ forall t, rest <> "-" ++ t /\ rest <> "+" ++ t)).
Proof.
  intro x. destruct (is_nan x) eqn:Hn.
  - left. unfold fsgn, fnum. rewrite Hn. auto.
  - right. split; [reflexivity|]. unfold fsgn, fnum, Float64.format_2f. rewrite Hn.
    destruct (Prim2SF x) as [s|s| |s m e] eqn:E.
    + destruct s; eexists; [left|right]; repeat split; discriminate.
    + destruct s; eexists; [left|right]; repeat split; discriminate.
    + exfalso. unfold is_nan in Hn. rewrite eqb_spec, E in Hn. discriminate.
    + destruct s; eexists; [left; split; reflexivity|right].
      split; [reflexivity|]. split; [reflexivity|].
      unfold Float64.fixed2, Float64.dec. cbn [Float64.sign_text append].
      intro t. generalize (Float64.round_hundredths m e / 100)%Z. intro z.
      destruct (N.to_uint (Z.to_N z)) as [|u|u|u|u|u|u|u|u|u|u];
        split; discriminate.
Qed.
